(** * energy-metering-ingest-api: the reliable publisher and the client fingerprint

    A shallow embedding of
      - [internal/mq] : [Publisher] with [connect], [isHealthy], [reconnect],
        [Publish], [publishWithConfirm] and [Close];
      - [tools/fingerprint] : [Generate].

    Go values are modelled as follows.  [int], [int64] and [time.Duration] are
    [Z] with the 64-bit two's complement wrap-around written out ([wrap64]);
    strings are [string]; an [error] is a small inductive type that keeps the
    message and the wrapped cause of [fmt.Errorf]'s [%w]; pointers are
    [option]s of handles.  The broker, the clock and the caller's context
    are an environment of answers that the code consults. *)

From Stdlib Require Import ZArith String Ascii List Bool Lia DecimalString DecimalZ.
Import ListNotations.

Local Open Scope Z_scope.

(** ** Machine integers *)

Module Int64.

Definition min_int : Z := - 2 ^ 63.
Definition max_int : Z := 2 ^ 63 - 1.

Definition in_range (z : Z) : Prop := min_int <= z <= max_int.

(** Two's complement reduction of a mathematical integer to 64 bits. *)
Definition wrap64 (z : Z) : Z := (z + 2 ^ 63) mod 2 ^ 64 - 2 ^ 63.

(** [x + y], [x - y] and [x * y] on [int64]. *)
Definition add (x y : Z) : Z := wrap64 (x + y).
Definition sub (x y : Z) : Z := wrap64 (x - y).
Definition mul (x y : Z) : Z := wrap64 (x * y).

(** [x << s] on [int64] with an unsigned shift count: counts of 64 and more
    shift every bit out. *)
Definition shl (x s : Z) : Z :=
  if 64 <=? s then 0 else wrap64 (Z.shiftl x s).

(** [uint(x)] of an [int]. *)
Definition to_uint (x : Z) : Z := x mod 2 ^ 64.

End Int64.

(** ** crypto/sha256 and encoding/hex

    The two library functions [Generate] calls, written out so that the
    fingerprint can be evaluated. Words are 32-bit, as [Z]. *)

Module SHA256.

Definition w32 (z : Z) : Z := z mod 2 ^ 32.
Definition add32 (x y : Z) : Z := w32 (x + y).
Definition rotr (n x : Z) : Z :=
  Z.lor (Z.shiftr x n) (w32 (Z.shiftl x (32 - n))).
Definition shr (n x : Z) : Z := Z.shiftr x n.
Definition not32 (x : Z) : Z := 2 ^ 32 - 1 - x.

Definition Ch (x y z : Z) : Z := Z.lxor (Z.land x y) (Z.land (not32 x) z).
Definition Maj (x y z : Z) : Z :=
  Z.lxor (Z.lxor (Z.land x y) (Z.land x z)) (Z.land y z).
Definition Sigma0 (x : Z) : Z := Z.lxor (Z.lxor (rotr 2 x) (rotr 13 x)) (rotr 22 x).
Definition Sigma1 (x : Z) : Z := Z.lxor (Z.lxor (rotr 6 x) (rotr 11 x)) (rotr 25 x).
Definition sigma0 (x : Z) : Z := Z.lxor (Z.lxor (rotr 7 x) (rotr 18 x)) (shr 3 x).
Definition sigma1 (x : Z) : Z := Z.lxor (Z.lxor (rotr 17 x) (rotr 19 x)) (shr 10 x).

(** The round constants and the initial state are the first 32 bits of the
    fractional parts of the cube roots of the first 64 primes, and of the
    square roots of the first 8. *)
Definition is_prime (n : nat) : bool :=
  forallb (fun d => negb (Nat.eqb (Nat.modulo n d) 0)) (seq 2 (n - 2)).

Definition primes (n : nat) : list Z :=
  map Z.of_nat (firstn n (filter is_prime (seq 2 400))).

(** The integer cube root, bit by bit from bit [b - 1] down. *)
Fixpoint cbrt_from (b : nat) (r n : Z) : Z :=
  match b with
  | O => r
  | S b' =>
      let r' := r + 2 ^ Z.of_nat b' in
      if r' * r' * r' <=? n then cbrt_from b' r' n else cbrt_from b' r n
  end.

Definition K : list Z :=
  Eval vm_compute in map (fun q => w32 (cbrt_from 40 0 (q * 2 ^ 96))) (primes 64).

Definition H0 : list Z :=
  Eval vm_compute in map (fun q => w32 (Z.sqrt (q * 2 ^ 64))) (primes 8).

(** Padding: a [0x80] byte, zeros up to 56 modulo 64, the bit length on
    eight big-endian bytes. *)
Definition be_bytes (n : nat) (z : Z) : list Z :=
  map (fun i => (Z.shiftr z (8 * Z.of_nat i)) mod 256) (rev (seq 0 n)).

Definition pad (msg : list Z) : list Z :=
  let len := Z.of_nat (length msg) in
  let zeros := Z.to_nat ((55 - len) mod 64) in
  msg ++ [0x80] ++ repeat 0 zeros ++ be_bytes 8 ((8 * len) mod 2 ^ 64).

Fixpoint be_words (fuel : nat) (bs : list Z) : list Z :=
  match fuel, bs with
  | S f, b0 :: b1 :: b2 :: b3 :: rest =>
      (b0 * 2 ^ 24 + b1 * 2 ^ 16 + b2 * 2 ^ 8 + b3) :: be_words f rest
  | _, _ => []
  end.

Fixpoint blocks (fuel : nat) (ws : list Z) : list (list Z) :=
  match fuel, ws with
  | S f, _ :: _ => firstn 16 ws :: blocks f (skipn 16 ws)
  | _, _ => []
  end.

(** Message schedule: [w] holds the words computed so far, latest first. *)
Fixpoint schedule (n : nat) (w : list Z) : list Z :=
  match n with
  | O => w
  | S n' =>
      let wt := add32 (add32 (sigma1 (nth 1 w 0)) (nth 6 w 0))
                      (add32 (sigma0 (nth 14 w 0)) (nth 15 w 0)) in
      schedule n' (wt :: w)
  end.

Definition round (st : list Z) (kw : Z * Z) : list Z :=
  match st with
  | [a; b; c; d; e; f; g; h] =>
      let t1 := add32 (add32 (add32 h (Sigma1 e)) (add32 (Ch e f g) (fst kw))) (snd kw) in
      let t2 := add32 (Sigma0 a) (Maj a b c) in
      [add32 t1 t2; a; b; c; add32 d t1; e; f; g]
  | _ => st
  end.

Definition compress (h : list Z) (block : list Z) : list Z :=
  let w := rev (schedule 48 (rev block)) in
  let st := fold_left round (combine K w) h in
  map (fun p => add32 (fst p) (snd p)) (combine h st).

(** [sha256.Sum256]: the digest as 32 bytes. *)
Definition Sum256 (data : list Z) : list Z :=
  let bs := pad data in
  let ws := be_words (length bs) bs in
  let h := fold_left compress (blocks (length ws) ws) H0 in
  flat_map (be_bytes 4) h.

End SHA256.

Module Hex.

Definition hextable : string := "0123456789abcdef"%string.

Definition digit (n : Z) : ascii :=
  match String.get (Z.to_nat n) hextable with
  | Some c => c
  | None => "0"%char
  end.

(** [hex.EncodeToString]: two lower-case digits per byte. *)
Fixpoint EncodeToString (src : list Z) : string :=
  match src with
  | [] => EmptyString
  | b :: rest =>
      String (digit (Z.shiftr b 4)) (String (digit (Z.land b 15)) (EncodeToString rest))
  end.

End Hex.

(** [[]byte(s)] for a Go string. *)
Definition bytes_of_string (s : string) : list Z :=
  map (fun c => Z.of_N (N_of_ascii c)) (list_ascii_of_string s).

(** ** tools/fingerprint *)

Module Fingerprint.

(** [fmt.Sprintf("%s%s", a, b)]. *)
Definition Sprintf_ss (a b : string) : string := (a ++ b)%string.

Definition Generate (ipAddress userAgent : string) : string :=
  let data := Sprintf_ss ipAddress userAgent in
  let hash := SHA256.Sum256 (bytes_of_string data) in
  Hex.EncodeToString hash.

End Fingerprint.

(** ** Errors

    [fmt.Errorf] with a [%w] verb builds a [*fmt.wrapError] holding the
    formatted message and the wrapped value; without [%w] it builds an
    [*errors.errorString].  [libError] stands for the errors that the amqp,
    net and json libraries hand back. *)

Inductive error : Type :=
| Canceled                                    (* context.Canceled *)
| DeadlineExceeded                            (* context.DeadlineExceeded *)
| libError (msg : string)
| errorString (msg : string)
| wrapError (msg : string) (err : error)
| wrapNil (msg : string).                     (* a wrapError that wraps nil *)

(** The [Error()] method. *)
Definition Error (e : error) : string :=
  match e with
  | Canceled => "context canceled"
  | DeadlineExceeded => "context deadline exceeded"
  | libError msg => msg
  | errorString msg => msg
  | wrapError msg _ => msg
  | wrapNil msg => msg
  end.

(** [errors.Unwrap]. *)
Definition Unwrap (e : error) : option error :=
  match e with
  | wrapError _ err => Some err
  | _ => None
  end.

(** What [%w] prints: the error's message, or the bad-verb text for a nil
    interface. *)
Definition verb_w (err : option error) : string :=
  match err with
  | Some e => Error e
  | None => "%!w(<nil>)"
  end.

(** What [%d] prints. *)
Definition verb_d (n : Z) : string := NilZero.string_of_int (Z.to_int n).

(** [fmt.Errorf(prefix + "%w", err)]. *)
Definition Errorf_w (prefix : string) (err : option error) : error :=
  match err with
  | Some e => wrapError (prefix ++ verb_w err) e
  | None => wrapNil (prefix ++ verb_w err)
  end.

(** [fmt.Errorf("failed to publish after %d attempts: %w", n, err)]. *)
Definition Errorf_attempts (n : Z) (err : option error) : error :=
  Errorf_w ("failed to publish after " ++ verb_d n ++ " attempts: ") err.

(** ** The broker library's handles and the caller's context *)

Inductive Connection := Conn (id : nat).        (* *amqp.Connection *)
Inductive Channel := Chan (id : nat).           (* *amqp.Channel *)
Inductive ConfirmChan := Confirms (ch : Channel). (* <-chan amqp.Confirmation *)

Record Confirmation := { DeliveryTag : Z; Ack : bool }.

(** A [context.Context], by the value [ctx.Err()] has once [ctx.Done()] is
    closed. *)
Inductive Context := CancelContext | DeadlineContext.

Definition ctx_Err (ctx : Context) : error :=
  match ctx with
  | CancelContext => Canceled
  | DeadlineContext => DeadlineExceeded
  end.

(** The value handed to [Publish], by what [json.Marshal] makes of it. *)
Record message := { marshalled : string + error }.

Definition json_Marshal (m : message) : string + error := marshalled m.

(** ** The publisher *)

Record Publisher := {
  conn : option Connection;
  channel : option Channel;
  confirms : option ConfirmChan;
  exchange : string;
  maxRetries : Z;
  retryBaseDelay : Z;           (* time.Duration, nanoseconds *)
  publishConfirmTimeout : Z;    (* time.Duration, nanoseconds *)
  rabbitMQURL : string
}.

Definition set_handles (c : option Connection) (ch : option Channel)
    (cf : option ConfirmChan) (p : Publisher) : Publisher :=
  {| conn := c; channel := ch; confirms := cf;
     exchange := exchange p; maxRetries := maxRetries p;
     retryBaseDelay := retryBaseDelay p;
     publishConfirmTimeout := publishConfirmTimeout p;
     rabbitMQURL := rabbitMQURL p |}.

Definition set_channel (ch : option Channel) (p : Publisher) : Publisher :=
  set_handles (conn p) ch (confirms p) p.

Definition set_conn (c : option Connection) (p : Publisher) : Publisher :=
  set_handles c (channel p) (confirms p) p.

(** ** What a call does, as seen from outside *)

Inductive level := Debug | Info | Warn | ErrorLevel.

Inductive field :=
| zapInt (key : string) (v : Z)
| zapString (key : string) (v : string)
| zapError (e : error).

Inductive event :=
| EvLock                                         (* p.mu.Lock() *)
| EvUnlock                                       (* p.mu.Unlock() *)
| EvIsClosed (c : Connection)                    (* c.IsClosed() *)
| EvChannelClose (ch : Channel)                  (* ch.Close() *)
| EvConnClose (c : Connection)                   (* c.Close() *)
| EvDial (url : string)                          (* amqp.Dial(url) *)
| EvOpenChannel (c : Connection)                 (* c.Channel() *)
| EvConfirm (ch : Channel)                       (* ch.Confirm(false) *)
| EvNotifyPublish (ch : Channel)                 (* ch.NotifyPublish(...) *)
| EvPublish (ch : Channel) (exch key body : string) (* ch.PublishWithContext *)
| EvAwaitConfirm (cf : option ConfirmChan) (timeout : Z)
      (* select: <-confirms, <-ctx.Done(), <-time.After(timeout) *)
| EvBackoff (delay : Z)
      (* select: <-ctx.Done(), <-time.After(delay) *)
| EvLog (lvl : level) (msg : string) (fields : list field).

Definition trace := list event.

(** ** The answers of the environment *)

(** Which case of the confirmation [select] fires. *)
Inductive confirm_select :=
| GotConfirm (confirm : Confirmation)
| ConfirmCtxDone
| ConfirmTimeout.

(** Which case of the backoff [select] fires. *)
Inductive backoff_select :=
| BackoffCtxDone
| BackoffElapsed.

Record connect_env := {
  dial : Connection + error;          (* amqp.Dial *)
  open_channel : Channel + error;     (* conn.Channel() *)
  confirm_mode : option error         (* channel.Confirm(false) *)
}.

Record close_env := {
  channel_close : option error;       (* p.channel.Close() *)
  conn_close : option error           (* p.conn.Close() *)
}.

(** What the environment answers during one iteration of the retry loop;
    each question is asked at most once per iteration.  The answers are not
    constrained: an environment may report open a connection that [connect]
    has closed, which no broker library does; what is proved for every
    environment holds for the real ones. *)
Record attempt_env := {
  conn_closed : bool;                 (* p.conn.IsClosed() *)
  connecting : connect_env;
  publish_result : option error;      (* channel.PublishWithContext *)
  confirm_wait : confirm_select;
  backoff_wait : backoff_select
}.

(** The environment of a [Publish] call, by attempt number. *)
Definition world := Z -> attempt_env.

(** ** A monad for methods of [*Publisher]

    A method reads and updates the publisher, leaves a trace, and either
    returns or panics (a nil pointer dereference).  [OutOfFuel] is for a loop
    that is still running when the iterations granted to it are used up. *)

Inductive completion (A : Type) :=
| Normal (a : A)
| Panic
| OutOfFuel.
Arguments Normal {A} a.
Arguments Panic {A}.
Arguments OutOfFuel {A}.

Definition M (A : Type) : Type := Publisher -> completion A * Publisher * trace.

Definition ret {A} (a : A) : M A := fun p => (Normal a, p, []).

Definition bind {A B} (m : M A) (f : A -> M B) : M B :=
  fun p =>
    match m p with
    | (Normal a, p1, t1) =>
        match f a p1 with
        | (r, p2, t2) => (r, p2, t1 ++ t2)
        end
    | (Panic, p1, t1) => (Panic, p1, t1)
    | (OutOfFuel, p1, t1) => (OutOfFuel, p1, t1)
    end.

Declare Scope go_scope.
Delimit Scope go_scope with go.
Notation "x <- m ;; k" := (bind m (fun x => k))
  (at level 61, m at next level, right associativity) : go_scope.
Notation "m ;; k" := (bind m (fun _ => k))
  (at level 61, right associativity) : go_scope.
Local Open Scope go_scope.

Definition get : M Publisher := fun p => (Normal p, p, []).
Definition modify (f : Publisher -> Publisher) : M unit := fun p => (Normal tt, f p, []).
Definition emit (e : event) : M unit := fun p => (Normal tt, p, [e]).
Definition skip : M unit := ret tt.
Definition log (lvl : level) (msg : string) (fields : list field) : M unit :=
  emit (EvLog lvl msg fields).

(** [*ptr]: panics on nil. *)
Definition deref {A} (ptr : option A) : M A :=
  fun p =>
    match ptr with
    | Some a => (Normal a, p, [])
    | None => (Panic, p, [])
    end.

Definition is_nil {A} (ptr : option A) : bool :=
  match ptr with
  | Some _ => false
  | None => true
  end.

(** [p.mu.Lock(); defer p.mu.Unlock()] around a body: the unlock runs when
    the body returns, and when it panics. *)
Definition locked {A} (body : M A) : M A :=
  fun p =>
    match body p with
    | (r, p1, t) => (r, p1, EvLock :: t ++ [EvUnlock])
    end.

Definition result_of {A} (x : completion A * Publisher * trace) : completion A := fst (fst x).
Definition state_of {A} (x : completion A * Publisher * trace) : Publisher := snd (fst x).
Definition trace_of {A} (x : completion A * Publisher * trace) : trace := snd x.

(** ** internal/mq: the methods *)

Module MQ.

(** [connect]: the whole body runs between [Lock] and the deferred
    [Unlock]. *)
Definition connect (e : connect_env) : M (option error) :=
  locked (
    p <- get ;;
    (if negb (is_nil (channel p))
     then ch <- deref (channel p) ;; emit (EvChannelClose ch)
     else skip) ;;
    (if negb (is_nil (conn p))
     then c <- deref (conn p) ;; emit (EvConnClose c)
     else skip) ;;
    emit (EvDial (rabbitMQURL p)) ;;
    match dial e with
    | inr err => ret (Some (Errorf_w "failed to connect to RabbitMQ: " (Some err)))
    | inl conn' =>
        emit (EvOpenChannel conn') ;;
        match open_channel e with
        | inr err =>
            emit (EvConnClose conn') ;;
            ret (Some (Errorf_w "failed to open channel: " (Some err)))
        | inl channel' =>
            emit (EvConfirm channel') ;;
            match confirm_mode e with
            | Some err =>
                emit (EvChannelClose channel') ;;
                emit (EvConnClose conn') ;;
                ret (Some (Errorf_w "failed to enable confirm mode: " (Some err)))
            | None =>
                emit (EvNotifyPublish channel') ;;
                modify (set_handles (Some conn') (Some channel')
                                    (Some (Confirms channel'))) ;;
                log Info "RabbitMQ publisher connected"
                    [zapString "exchange" (exchange p)] ;;
                ret None
            end
        end
    end).

(** [NewPublisher]: the configuration in nanoseconds, then [connect]. *)
Definition NewPublisher (rabbitMQURL exchange : string)
    (maxRetries retryBaseDelayMs confirmTimeoutSec : Z) (e : connect_env)
    : (option Publisher * option error) * trace :=
  let p := {| conn := None; channel := None; confirms := None;
              exchange := exchange;
              maxRetries := maxRetries;
              retryBaseDelay := Int64.mul retryBaseDelayMs 1000000;
              publishConfirmTimeout := Int64.mul confirmTimeoutSec 1000000000;
              rabbitMQURL := rabbitMQURL |} in
  match connect e p with
  | (Normal (Some err), _, t) => ((None, Some err), t)
  | (Normal None, p', t) => ((Some p', None), t)
  | (Panic, _, t) | (OutOfFuel, _, t) => ((None, None), t)
  end.

(** [isHealthy]; [closed] is what [p.conn.IsClosed()] answers. *)
Definition isHealthy (closed : bool) : M bool :=
  locked (
    p <- get ;;
    if is_nil (conn p) then ret false
    else
      c <- deref (conn p) ;;
      emit (EvIsClosed c) ;;
      if closed then ret false
      else if is_nil (channel p) then ret false
      else ret true).

Definition reconnect (e : connect_env) : M (option error) :=
  log Warn "Attempting to reconnect to RabbitMQ" [] ;;
  connect e.

(** [publishWithConfirm]: the two handles are read between [Lock] and
    [Unlock]; the rest follows the [Unlock]. *)
Definition publishWithConfirm (ctx : Context) (e : attempt_env)
    (routingKey body : string) : M (option error) :=
  emit EvLock ;;
  p <- get ;;
  let channel' := channel p in
  let confirms' := confirms p in
  emit EvUnlock ;;
  if is_nil channel' then ret (Some (errorString "channel is nil"))
  else
    ch <- deref channel' ;;
    emit (EvPublish ch (exchange p) routingKey body) ;;
    match publish_result e with
    | Some err => ret (Some (Errorf_w "publish failed: " (Some err)))
    | None =>
        emit (EvAwaitConfirm confirms' (publishConfirmTimeout p)) ;;
        match confirm_wait e with
        | GotConfirm confirm =>
            if negb (Ack confirm)
            then ret (Some (errorString "publish not acknowledged by broker"))
            else ret None
        | ConfirmCtxDone => ret (Some (ctx_Err ctx))
        | ConfirmTimeout => ret (Some (errorString "confirmation timeout"))
        end
    end.

(** [p.retryBaseDelay * time.Duration(1<<uint(attempt-1))]. *)
Definition backoff_delay (p : Publisher) (attempt : Z) : Z :=
  Int64.mul (retryBaseDelay p) (Int64.shl 1 (Int64.to_uint (Int64.sub attempt 1))).

(** How one iteration of the retry loop ends: [Publish] returns, or the
    loop goes on with [lastErr] set. *)
Inductive step :=
| Return (r : option error)
| Continue (lastErr : error).

(** The tail both failure branches of the loop share: when attempts
    remain, wait for the backoff delay or the context, then [continue]. *)
Definition wait_and_continue (ctx : Context) (e : attempt_env)
    (attempt : Z) (lastErr : error) : M step :=
  p <- get ;;
  if attempt <? maxRetries p then
    emit (EvBackoff (backoff_delay p attempt)) ;;
    match backoff_wait e with
    | BackoffCtxDone => ret (Return (Some (ctx_Err ctx)))
    | BackoffElapsed => ret (Continue lastErr)
    end
  else ret (Continue lastErr).

Definition publish_once (ctx : Context) (e : attempt_env)
    (routingKey body : string) (attempt : Z) : M step :=
  r <- publishWithConfirm ctx e routingKey body ;;
  match r with
  | Some err =>
      p <- get ;;
      log Warn "Publish attempt failed"
          [zapInt "attempt" attempt; zapInt "max_retries" (maxRetries p); zapError err] ;;
      wait_and_continue ctx e attempt err
  | None =>
      log Debug "Message published successfully"
          [zapString "routing_key" routingKey; zapInt "attempt" attempt] ;;
      ret (Return None)
  end.

(** The body of the [for] loop of [Publish], at iteration [attempt]. *)
Definition attempt_body (ctx : Context) (e : attempt_env)
    (routingKey body : string) (attempt : Z) : M step :=
  healthy <- isHealthy (conn_closed e) ;;
  if negb healthy then
    log Warn "Connection unhealthy, attempting reconnect" [zapInt "attempt" attempt] ;;
    r <- reconnect (connecting e) ;;
    match r with
    | Some err =>
        let lastErr := Errorf_w "reconnect failed: " (Some err) in
        log ErrorLevel "Reconnection failed" [zapInt "attempt" attempt; zapError err] ;;
        wait_and_continue ctx e attempt lastErr
    | None => publish_once ctx e routingKey body attempt
    end
  else publish_once ctx e routingKey body attempt.

(** [for attempt := 1; attempt <= p.maxRetries; attempt++] and the [return]
    after it.  [fuel] counts the tests of the loop condition that may still
    be made. *)
Fixpoint Publish_loop (fuel : nat) (ctx : Context) (w : world)
    (routingKey body : string) (attempt : Z) (lastErr : option error)
    : M (option error) :=
  match fuel with
  | O => fun p => (OutOfFuel, p, [])
  | S fuel' =>
      p <- get ;;
      if attempt <=? maxRetries p then
        s <- attempt_body ctx (w attempt) routingKey body attempt ;;
        match s with
        | Return r => ret r
        | Continue err =>
            Publish_loop fuel' ctx w routingKey body (Int64.add attempt 1) (Some err)
        end
      else ret (Some (Errorf_attempts (maxRetries p) lastErr))
  end.

(** [Publish].  The loop tests its condition [maxRetries + 1] times at most,
    as long as that counter value is an [int]. *)
Definition Publish (ctx : Context) (w : world) (routingKey : string)
    (msg : message) : M (option error) :=
  match json_Marshal msg with
  | inr err => ret (Some (Errorf_w "failed to marshal message: " (Some err)))
  | inl body =>
      p <- get ;;
      Publish_loop (S (Z.to_nat (maxRetries p))) ctx w routingKey body 1 None
  end.

(** [Close]. *)
Definition Close (e : close_env) : M (option error) :=
  locked (
    p <- get ;;
    (if negb (is_nil (channel p)) then
       ch <- deref (channel p) ;;
       emit (EvChannelClose ch) ;;
       match channel_close e with
       | Some err => log ErrorLevel "Failed to close channel" [zapError err]
       | None => skip
       end ;;
       modify (set_channel None)
     else skip) ;;
    p <- get ;;
    if negb (is_nil (conn p)) then
      c <- deref (conn p) ;;
      emit (EvConnClose c) ;;
      match conn_close e with
      | Some err =>
          log ErrorLevel "Failed to close connection" [zapError err] ;;
          ret (Some err)
      | None =>
          modify (set_conn None) ;;
          log Info "RabbitMQ publisher closed" [] ;;
          ret None
      end
    else
      log Info "RabbitMQ publisher closed" [] ;;
      ret None).

End MQ.

(** ** Reading a run of [Publish] *)

Module Run.

Import MQ.

(** Iterations [a], [a+1], ..., [a+n-1] of the retry loop, one after the
    other from state [p]: the state they leave and what they did. *)
Fixpoint iterate (n : nat) (ctx : Context) (w : world)
    (routingKey body : string) (a : Z) (p : Publisher) : Publisher * trace :=
  match n with
  | O => (p, [])
  | S m =>
      match attempt_body ctx (w a) routingKey body a p with
      | (_, p1, t1) =>
          match iterate m ctx w routingKey body (a + 1) p1 with
          | (p2, t2) => (p2, t1 ++ t2)
          end
      end
  end.

(** Iteration [k] of the loop of a [Publish] call that starts in state [p]
    and whose iterations before [k] all went on to the next one. *)
Definition nth_attempt (ctx : Context) (w : world) (routingKey body : string)
    (p : Publisher) (k : Z) : completion step * Publisher * trace :=
  attempt_body ctx (w k) routingKey body k
    (fst (iterate (Z.to_nat (k - 1)) ctx w routingKey body 1 p)).

(** [maxRetries] is an [int], and so is the value [maxRetries + 1] at which
    the loop counter ends. *)
Definition counter_fits (p : Publisher) : Prop :=
  Int64.min_int <= maxRetries p < Int64.max_int.

(** The attempt failed with [e] and the loop went on. *)
Definition fails_with (x : completion step * Publisher * trace) (e : error) : Prop :=
  result_of x = Normal (Continue e).

(** The attempt published and [Publish] returned nil. *)
Definition succeeds (x : completion step * Publisher * trace) : Prop :=
  result_of x = Normal (Return None).

(** The attempt did not publish: the loop went on, or [Publish] returned an
    error out of the backoff wait. *)
Definition failed (r : completion step) : bool :=
  match r with
  | Normal (Continue _) => true
  | Normal (Return (Some _)) => true
  | _ => false
  end.

(** The delays of the backoff waits of a trace, in order. *)
Fixpoint backoffs (t : trace) : list Z :=
  match t with
  | [] => []
  | EvBackoff d :: t' => d :: backoffs t'
  | _ :: t' => backoffs t'
  end.

(** Calls into the broker library that go over the network, and waits. *)
Definition blocks_on_io (e : event) : bool :=
  match e with
  | EvChannelClose _ | EvConnClose _ | EvDial _ | EvOpenChannel _
  | EvConfirm _ | EvPublish _ _ _ _ | EvAwaitConfirm _ _ | EvBackoff _ => true
  | _ => false
  end.

(** Does some network call or wait of the trace happen while [p.mu] is
    held?  [held] tells whether it is held at the start. *)
Fixpoint held_across_io (held : bool) (t : trace) : bool :=
  match t with
  | [] => false
  | EvLock :: t' => held_across_io true t'
  | EvUnlock :: t' => held_across_io false t'
  | e :: t' => (held && blocks_on_io e) || held_across_io held t'
  end.

(** For each call of [amqp.Dial] in the trace, whether [p.mu] is held
    when it is made. *)
Fixpoint lock_at_dial (held : bool) (t : trace) : list bool :=
  match t with
  | [] => []
  | EvLock :: t' => lock_at_dial true t'
  | EvUnlock :: t' => lock_at_dial false t'
  | EvDial _ :: t' => held :: lock_at_dial held t'
  | _ :: t' => lock_at_dial held t'
  end.

(** The handles a trace closes, in order. *)
Inductive handle := ChannelHandle (ch : Channel) | ConnHandle (c : Connection).

Fixpoint closes (t : trace) : list handle :=
  match t with
  | [] => []
  | EvChannelClose ch :: t' => ChannelHandle ch :: closes t'
  | EvConnClose c :: t' => ConnHandle c :: closes t'
  | _ :: t' => closes t'
  end.

(** The calls of [amqp.Dial] in a trace. *)
Fixpoint dials (t : trace) : list string :=
  match t with
  | [] => []
  | EvDial url :: t' => url :: dials t'
  | _ :: t' => dials t'
  end.

(** The errors [publishWithConfirm] builds for a negative acknowledgment
    and for the confirmation timeout. *)
Definition nack_error : error := errorString "publish not acknowledged by broker".
Definition timeout_error : error := errorString "confirmation timeout".

(** [strings.HasPrefix]. *)
Fixpoint HasPrefix (s pre : string) {struct pre} : bool :=
  match pre with
  | EmptyString => true
  | String c pre' =>
      match s with
      | EmptyString => false
      | String d s' => Ascii.eqb c d && HasPrefix s' pre'
      end
  end.

(** Is [e] the error [Publish] builds after the loop? *)
Definition is_aggregate (e : error) : bool :=
  match e with
  | wrapError msg _ | wrapNil msg => HasPrefix msg "failed to publish after "
  | _ => false
  end.

End Run.

(** ** Sample configurations and environments *)

Module Sample.

Import MQ.

Definition broker_up : connect_env :=
  {| dial := inl (Conn 1); open_channel := inl (Chan 1); confirm_mode := None |}.

Definition broker_down : connect_env :=
  {| dial := inr (libError "dial tcp 10.0.0.7:5671: connect: connection refused");
     open_channel := inl (Chan 1); confirm_mode := None |}.

Definition redial (n : nat) : connect_env :=
  {| dial := inl (Conn n); open_channel := inl (Chan n); confirm_mode := None |}.

Definition closes_cleanly : close_env :=
  {| channel_close := None; conn_close := None |}.

(** A publisher as [NewPublisher] returns it when the broker is up; the
    confirmation timeout is the default of 5 s. *)
Definition fresh (maxRetries retryBaseDelayMs : Z) : Publisher :=
  match NewPublisher "amqps://broker.example:5671" "energy-metering.ingest.exchange"
                     maxRetries retryBaseDelayMs 5 broker_up with
  | ((Some p, _), _) => p
  | _ => {| conn := None; channel := None; confirms := None;
            exchange := ""; maxRetries := 0; retryBaseDelay := 0;
            publishConfirmTimeout := 0; rabbitMQURL := "" |}
  end.

(** The defaults of the configuration: 3 attempts, 100 ms. *)
Definition connected : Publisher := fresh 3 100.

Definition answer (closed : bool) (c : connect_env) (pub : option error)
    (cw : confirm_select) (bw : backoff_select) : attempt_env :=
  {| conn_closed := closed; connecting := c; publish_result := pub;
     confirm_wait := cw; backoff_wait := bw |}.

Definition acked : attempt_env :=
  answer false (redial 2) None (GotConfirm {| DeliveryTag := 1; Ack := true |}) BackoffElapsed.

Definition nacked : attempt_env :=
  answer false (redial 2) None (GotConfirm {| DeliveryTag := 1; Ack := false |}) BackoffElapsed.

Definition timed_out : attempt_env :=
  answer false (redial 2) None ConfirmTimeout BackoffElapsed.

Definition unreachable : attempt_env :=
  answer true broker_down None ConfirmTimeout BackoffElapsed.

(** The connection is found closed, the broker is back and acknowledges. *)
Definition recovered : attempt_env :=
  answer true (redial 2) None (GotConfirm {| DeliveryTag := 1; Ack := true |}) BackoffElapsed.

(** The context ends while the attempt waits for the confirmation, and is
    still ended at the backoff wait. *)
Definition cancelled : attempt_env :=
  answer false (redial 2) None ConfirmCtxDone BackoffCtxDone.

(** The confirmation times out and the context ends during the backoff. *)
Definition cancelled_in_backoff : attempt_env :=
  answer false (redial 2) None ConfirmTimeout BackoffCtxDone.

Definition always (e : attempt_env) : world := fun _ => e.

(** [e] at the attempts before [k], [e'] from [k] on. *)
Definition until (k : Z) (e e' : attempt_env) : world :=
  fun a => if a <? k then e else e'.

Definition reading : message :=
  {| marshalled := inl "{}"%string |}.

Definition routing_key : string := "meter.reading.ingested".

End Sample.

(** ** internal/config *)

Module Config.

(** [os.Getenv]: the value of a variable, empty when it is not set. *)
Definition environ := string -> string.

Record Config := {
  ServiceName : string;
  ServicePort : Z;
  RabbitMQURL : string;
  RabbitMQExchange : string;
  RabbitMQRoutingKey : string;
  RabbitMQMaxRetries : Z;
  RabbitMQRetryBaseDelay : Z;       (* in milliseconds *)
  ServerStartTimeout : Z;           (* in seconds *)
  ServerStopTimeout : Z;            (* in seconds *)
  PublishConfirmTimeout : Z;        (* in seconds *)
  GinMode : string
}.

(** The [Err] of the [*strconv.NumError] that [strconv.Atoi] returns. *)
Inductive NumError := ErrSyntax | ErrRange.

(** [strconv.Atoi]: an optional sign, then decimal digits, at least one,
    and nothing else; the value must be an [int]. *)
Definition Atoi (s : string) : Z + NumError :=
  let '(neg, digits) :=
    match s with
    | String c rest =>
        if Ascii.eqb c "-" then (true, rest)
        else if Ascii.eqb c "+" then (false, rest)
        else (false, s)
    | EmptyString => (false, s)
    end in
  match NilZero.uint_of_string digits with
  | None => inr ErrSyntax
  | Some d =>
      let n := if neg then - Z.of_uint d else Z.of_uint d in
      if (Int64.min_int <=? n) && (n <=? Int64.max_int) then inl n
      else inr ErrRange
  end.

Definition getEnv (env : environ) (key defaultValue : string) : string :=
  let value := env key in
  if negb (String.eqb value "") then value else defaultValue.

Definition getEnvAsInt (env : environ) (key : string) (defaultValue : Z) : Z :=
  let valueStr := env key in
  if String.eqb valueStr "" then defaultValue
  else
    match Atoi valueStr with
    | inr _ => defaultValue
    | inl value => value
    end.

Definition Load (env : environ) : Config + error :=
  let serviceName := getEnv env "SERVICE_NAME" "energy-metering-ingest-api" in
  let servicePort := getEnvAsInt env "SERVICE_PORT" 8080 in
  let rabbitMQURL := getEnv env "RABBITMQ_URL" "" in
  let rabbitMQExchange := getEnv env "RABBITMQ_EXCHANGE" "energy-metering.ingest.exchange" in
  let rabbitMQRoutingKey := getEnv env "RABBITMQ_ROUTING_KEY" "meter.reading.ingested" in
  let rabbitMQMaxRetries := getEnvAsInt env "RABBITMQ_MAX_RETRIES" 3 in
  let rabbitMQRetryBaseDelay := getEnvAsInt env "RABBITMQ_RETRY_BASE_DELAY_MS" 100 in
  let serverStartTimeout := getEnvAsInt env "SERVER_START_TIMEOUT_SEC" 15 in
  let serverStopTimeout := getEnvAsInt env "SERVER_STOP_TIMEOUT_SEC" 15 in
  let publishConfirmTimeout := getEnvAsInt env "PUBLISH_CONFIRM_TIMEOUT_SEC" 5 in
  let ginMode := getEnv env "GIN_MODE" "debug" in
  if String.eqb rabbitMQURL "" then inr (errorString "RABBITMQ_URL is required")
  else
    inl {| ServiceName := serviceName;
           ServicePort := servicePort;
           RabbitMQURL := rabbitMQURL;
           RabbitMQExchange := rabbitMQExchange;
           RabbitMQRoutingKey := rabbitMQRoutingKey;
           RabbitMQMaxRetries := rabbitMQMaxRetries;
           RabbitMQRetryBaseDelay := rabbitMQRetryBaseDelay;
           ServerStartTimeout := serverStartTimeout;
           ServerStopTimeout := serverStopTimeout;
           PublishConfirmTimeout := publishConfirmTimeout;
           GinMode := ginMode |}.

End Config.

(** ** internal/service *)

Module Service.

Import MQ.

Record MeterReading := { Date : string; Data : string; Name : string }.

Record IngestRequest := { PM : list MeterReading }.

Record ClientMetadata := {
  IPAddress : string;
  UserAgent : string;
  HasAuthHeader : bool
}.

(** [IngestMessage]; the comments give the JSON keys. *)
Record IngestMessage := {
  RequestID : string;               (* request_id *)
  ClientFingerprint : string;       (* client_fingerprint *)
  MessageIPAddress : string;        (* ip_address *)
  MessageUserAgent : string;        (* user_agent *)
  ReceivedAt : string;              (* received_at *)
  Payload : IngestRequest           (* payload *)
}.

(** The fields of an [IngestService] that are not the publisher. *)
Record IngestService := { routingKey : string }.

(** What a call of [ProcessReading] draws from outside: [uuid.New().String()],
    [time.Now().Format(time.RFC3339)], and the bytes [json.Marshal] makes of
    the message (it does not fail on a struct of strings and slices). *)
Record service_env := {
  new_uuid : string;
  now_rfc3339 : string;
  marshal : IngestMessage -> string
}.

Definition as_message (se : service_env) (m : IngestMessage) : message :=
  {| marshalled := inl (marshal se m) |}.

(** [fmt.Errorf("PM[%d].<field> cannot be empty", i)]. *)
Definition Errorf_field (i : Z) (field : string) : error :=
  errorString ("PM[" ++ verb_d i ++ "]." ++ field ++ " cannot be empty").

(** [for i, reading := range req.PM]: the first empty field, if any. *)
Fixpoint check_readings (i : Z) (pm : list MeterReading) : option error :=
  match pm with
  | [] => None
  | reading :: rest =>
      if String.eqb (Date reading) "" then Some (Errorf_field i "date")
      else if String.eqb (Data reading) "" then Some (Errorf_field i "data")
      else if String.eqb (Name reading) "" then Some (Errorf_field i "name")
      else check_readings (i + 1) rest
  end.

Definition ProcessReading (s : IngestService) (se : service_env)
    (ctx : Context) (w : world) (req : IngestRequest)
    (metadata : ClientMetadata) : M (option error) :=
  if (Z.of_nat (List.length (PM req)) =? 0)
  then ret (Some (errorString "PM array cannot be empty"))
  else
    match check_readings 0 (PM req) with
    | Some err => ret (Some err)
    | None =>
        let requestID := new_uuid se in
        let clientFingerprint :=
          Fingerprint.Generate (IPAddress metadata) (UserAgent metadata) in
        let message :=
          {| RequestID := requestID;
             ClientFingerprint := clientFingerprint;
             MessageIPAddress := IPAddress metadata;
             MessageUserAgent := UserAgent metadata;
             ReceivedAt := now_rfc3339 se;
             Payload := req |} in
        r <- Publish ctx w (routingKey s) (as_message se message) ;;
        match r with
        | Some err =>
            log ErrorLevel "Failed to publish message"
                [zapString "request_id" requestID; zapError err] ;;
            ret (Some (Errorf_w "failed to publish message: " (Some err)))
        | None =>
            log Info "Meter reading ingested successfully"
                [zapString "request_id" requestID;
                 zapString "client_fingerprint" clientFingerprint;
                 zapInt "readings_count" (Z.of_nat (List.length (PM req)))] ;;
            ret None
        end
    end.

End Service.

(** ** internal/handler *)

Module Handler.

Import MQ Service.

(** What a handler reads of a [*gin.Context]: the headers ([GetHeader] gives
    the empty string for a missing one), what [ShouldBindJSON] makes of the
    body, [c.ClientIP()] and the context of the request. *)
Record GinContext := {
  GetHeader : string -> string;
  ShouldBindJSON : IngestRequest + error;
  ClientIP : string;
  RequestContext : Context
}.

(** [c.JSON(status, gin.H{...})]. *)
Record response := { status : Z; body : list (string * string) }.

(** An entry of a [gin.H]. *)
Definition entry (key value : string) : string * string := (key, value).

Definition StatusOK : Z := 200.
Definition StatusAccepted : Z := 202.
Definition StatusBadRequest : Z := 400.
Definition StatusServiceUnavailable : Z := 503.

(** [strings.Split(s, sep)] for a separator of one byte: the pieces between
    the separators, one more than there are separators. *)
Fixpoint Split (s : string) (sep : ascii) : list string :=
  match s with
  | EmptyString => [EmptyString]
  | String c rest =>
      if Ascii.eqb c sep then EmptyString :: Split rest sep
      else
        match Split rest sep with
        | piece :: pieces => String c piece :: pieces
        | [] => [String c EmptyString]
        end
  end.

Section ClientIP.

(** [strings.TrimSpace], of the standard library. *)
Variable TrimSpace : string -> string.

Definition getClientIP (c : GinContext) : string :=
  let xff := GetHeader c "X-Forwarded-For" in
  let from_xff :=
    if negb (String.eqb xff "") then
      match Split xff "," with
      | first :: _ => Some (TrimSpace first)
      | [] => None
      end
    else None in
  match from_xff with
  | Some ip => ip
  | None =>
      let xri := GetHeader c "X-Real-IP" in
      if negb (String.eqb xri "") then TrimSpace xri
      else ClientIP c
  end.

(** [IngestReading]: bind, collect the client's metadata, process. *)
Definition IngestReading (s : IngestService) (se : service_env) (w : world)
    (c : GinContext) : M response :=
  match ShouldBindJSON c with
  | inr err =>
      log Warn "Invalid request payload"
          [zapError err; zapString "client_ip" (getClientIP c)] ;;
      ret {| status := StatusBadRequest;
             body := [entry "error" "Invalid request payload";
                      entry "details" (Error err)] |}
  | inl req =>
      let metadata :=
        {| IPAddress := getClientIP c;
           UserAgent := GetHeader c "User-Agent";
           HasAuthHeader := negb (String.eqb (GetHeader c "Authorization") "") |} in
      r <- ProcessReading s se (RequestContext c) w req metadata ;;
      match r with
      | Some err =>
          log ErrorLevel "Failed to process reading"
              [zapError err; zapString "client_ip" (IPAddress metadata)] ;;
          ret {| status := StatusServiceUnavailable;
                 body := [entry "error" "Failed to process reading";
                          entry "message" "Service temporarily unavailable"] |}
      | None =>
          ret {| status := StatusAccepted;
                 body := [entry "status" "accepted";
                          entry "message" "Meter reading ingested successfully"] |}
      end
  end.

End ClientIP.

End Handler.

(** ** cmd/server: how the publisher and the service are built *)

Module Server.

Import MQ.

(** The provider of [*mq.Publisher] given to [fx.Provide]. *)
Definition providePublisher (cfg : Config.Config) (e : connect_env)
    : (option Publisher * option error) * trace :=
  NewPublisher (Config.RabbitMQURL cfg) (Config.RabbitMQExchange cfg)
               (Config.RabbitMQMaxRetries cfg) (Config.RabbitMQRetryBaseDelay cfg)
               (Config.PublishConfirmTimeout cfg) e.

(** The provider of [*service.IngestService]. *)
Definition provideService (cfg : Config.Config) : Service.IngestService :=
  {| Service.routingKey := Config.RabbitMQRoutingKey cfg |}.

End Server.

(** ** Reading the outcome of the other calls *)

Module Observe.

Import MQ Run Service.

(** The handles a publisher holds, in the order [connect] and [Close] close
    them. *)
Definition held (p : Publisher) : list handle :=
  match channel p with Some ch => [ChannelHandle ch] | None => [] end
  ++ match conn p with Some c => [ConnHandle c] | None => [] end.

(** The handles the broker library hands out during a [connect], a channel
    before the connection it was opened on. *)
Definition obtained (e : connect_env) : list handle :=
  match dial e with
  | inr _ => []
  | inl c =>
      match open_channel e with
      | inr _ => [ConnHandle c]
      | inl ch => [ChannelHandle ch; ConnHandle c]
      end
  end.

(** The call that closes a handle. *)
Definition close_event (h : handle) : event :=
  match h with
  | ChannelHandle ch => EvChannelClose ch
  | ConnHandle c => EvConnClose c
  end.

(** The channel is the one the confirmation channel was registered on, and
    it comes with a connection. *)
Definition handles_paired (p : Publisher) : Prop :=
  forall ch, channel p = Some ch ->
    confirms p = Some (Confirms ch) /\ conn p <> None.

(** The channels messages are submitted on, in order. *)
Fixpoint publishes (t : trace) : list Channel :=
  match t with
  | [] => []
  | EvPublish ch _ _ _ :: t' => ch :: publishes t'
  | _ :: t' => publishes t'
  end.

(** What is submitted, in order: exchange, routing key and body. *)
Fixpoint submissions (t : trace) : list (string * string * string) :=
  match t with
  | [] => []
  | EvPublish _ exch key body :: t' => (exch, key, body) :: submissions t'
  | _ :: t' => submissions t'
  end.

(** For each confirmation wait of a trace: the confirmation channel waited
    on, and the channel of the latest submission before it ([last] when
    there is none in the trace). *)
Fixpoint awaits (last : option Channel) (t : trace)
    : list (option ConfirmChan * option Channel) :=
  match t with
  | [] => []
  | EvPublish ch _ _ _ :: t' => awaits (Some ch) t'
  | EvAwaitConfirm cf _ :: t' => (cf, last) :: awaits last t'
  | _ :: t' => awaits last t'
  end.

(** The wait is on the confirmations of the channel just published on. *)
Definition own_confirms (x : option ConfirmChan * option Channel) : Prop :=
  exists ch, fst x = Some (Confirms ch) /\ snd x = Some ch.

(** The attempt whose answers are a successful submission followed by a
    positive acknowledgment. *)
Definition acknowledged (e : attempt_env) : Prop :=
  publish_result e = None /\
  exists confirm, confirm_wait e = GotConfirm confirm /\ Ack confirm = true.

Definition total (l : list Z) : Z := fold_right Z.add 0 l.

Definition is_byte (b : Z) : Prop := 0 <= b < 256.

(** A lower-case hexadecimal digit. *)
Definition lower_hex (c : ascii) : bool :=
  existsb (Ascii.eqb c) (list_ascii_of_string "0123456789abcdef").

(** The string holds no [sep]. *)
Definition free_of (sep : ascii) (s : string) : bool :=
  forallb (fun c => negb (Ascii.eqb c sep)) (list_ascii_of_string s).

(** The first of [date], [data], [name] that a reading leaves empty. *)
Definition missing_field (r : MeterReading) : option string :=
  if String.eqb (Date r) "" then Some "date"%string
  else if String.eqb (Data r) "" then Some "data"%string
  else if String.eqb (Name r) "" then Some "name"%string
  else None.

(** The message [ProcessReading] builds for a request. *)
Definition message_of (se : service_env) (req : IngestRequest)
    (metadata : ClientMetadata) : IngestMessage :=
  {| RequestID := new_uuid se;
     ClientFingerprint := Fingerprint.Generate (IPAddress metadata) (UserAgent metadata);
     MessageIPAddress := IPAddress metadata;
     MessageUserAgent := UserAgent metadata;
     ReceivedAt := now_rfc3339 se;
     Payload := req |}.

(** A request that [ProcessReading] publishes: some readings, none with an
    empty field. *)
Definition complete (req : IngestRequest) : bool :=
  negb (Nat.eqb (List.length (PM req)) 0)
  && forallb (fun r => match missing_field r with None => true | Some _ => false end)
             (PM req).

End Observe.

(** ** More sample inputs *)

Module Cases.

Import Config Service Handler.

(** An environment with the broker's URL and a retry budget of zero. *)
Definition env_no_retries : environ :=
  fun key =>
    if String.eqb key "RABBITMQ_URL" then "amqps://broker.example:5671"%string
    else if String.eqb key "RABBITMQ_MAX_RETRIES" then "0"%string
    else EmptyString.

Definition service : IngestService := {| routingKey := Sample.routing_key |}.

(** Fixed answers for the request identifier and the clock, and a stand-in
    for the JSON encoder that keeps the identifier and the fingerprint. *)
Definition drawn : service_env :=
  {| new_uuid := "550e8400-e29b-41d4-a716-446655440000";
     now_rfc3339 := "2025-12-29T10:30:00Z";
     marshal := fun m => (RequestID m ++ " " ++ ClientFingerprint m)%string |}.

Definition reading_ok : MeterReading :=
  {| Date := "2025-12-29"; Data := "42.5"; Name := "PM-1" |}.

Definition reading_no_data : MeterReading :=
  {| Date := "2025-12-29"; Data := ""; Name := "" |}.

Definition device : ClientMetadata :=
  {| IPAddress := "192.168.1.100"; UserAgent := "IoT-Device/1.0";
     HasAuthHeader := false |}.

(** A request with the given headers, body and socket address. *)
Definition incoming (xff xri ua : string) (bound : IngestRequest + error)
    (remote : string) : GinContext :=
  {| GetHeader := fun name =>
       if String.eqb name "X-Forwarded-For" then xff
       else if String.eqb name "X-Real-IP" then xri
       else if String.eqb name "User-Agent" then ua
       else EmptyString;
     ShouldBindJSON := bound;
     ClientIP := remote;
     RequestContext := CancelContext |}.

End Cases.

(** * Properties *)

Import MQ Run.

(** ** Arithmetic of [int64] *)

Lemma wrap64_in_range z : Int64.in_range z -> Int64.wrap64 z = z.
Proof.
  unfold Int64.in_range, Int64.min_int, Int64.max_int, Int64.wrap64. intros H.
  rewrite Z.mod_small; lia.
Qed.

Lemma wrap64_congr_mul x y :
  Int64.wrap64 (x * Int64.wrap64 y) = Int64.wrap64 (x * y).
Proof.
  unfold Int64.wrap64. f_equal.
  rewrite (Z.mod_eq (y + 2 ^ 63) (2 ^ 64)) by lia.
  replace (x * (y + 2 ^ 63 - 2 ^ 64 * ((y + 2 ^ 63) / 2 ^ 64) - 2 ^ 63) + 2 ^ 63)
    with (x * y + 2 ^ 63 + (- x * ((y + 2 ^ 63) / 2 ^ 64)) * 2 ^ 64) by ring.
  apply Z_mod_plus_full.
Qed.

Lemma shl_one s : 0 <= s -> Int64.shl 1 s = Int64.wrap64 (2 ^ s).
Proof.
  intros Hs. unfold Int64.shl. destruct (64 <=? s) eqn:E.
  - apply Z.leb_le in E. unfold Int64.wrap64.
    replace (2 ^ s) with (2 ^ (s - 64) * 2 ^ 64)
      by (rewrite <- Z.pow_add_r by lia; f_equal; lia).
    rewrite Z.add_comm, Z_mod_plus_full. reflexivity.
  - rewrite Z.shiftl_1_l. reflexivity.
Qed.

Lemma backoff_delay_wrap p a :
  1 <= a <= Int64.max_int ->
  backoff_delay p a = Int64.wrap64 (retryBaseDelay p * 2 ^ (a - 1)).
Proof.
  intros Ha. unfold backoff_delay, Int64.mul, Int64.to_uint, Int64.sub.
  rewrite (wrap64_in_range (a - 1))
    by (unfold Int64.in_range, Int64.min_int, Int64.max_int in *; lia).
  rewrite Z.mod_small by (unfold Int64.max_int in Ha; lia).
  rewrite shl_one by lia. apply wrap64_congr_mul.
Qed.

(** ** The fingerprint *)

(** Known digests, to check the transcription of the hash. *)
Example sha256_empty :
  Hex.EncodeToString (SHA256.Sum256 (bytes_of_string ""))
  = "e3b0c44298fc1c149afbf4c8996fb92427ae41e4649b934ca495991b7852b855"%string.
Proof. vm_compute. reflexivity. Qed.

Example sha256_abc :
  Hex.EncodeToString (SHA256.Sum256 (bytes_of_string "abc"))
  = "ba7816bf8f01cfea414140de5dae2223b00361a396177a9cb410ff61f20015ad"%string.
Proof. vm_compute. reflexivity. Qed.

Example sha256_two_blocks :
  Hex.EncodeToString (SHA256.Sum256 (bytes_of_string
    "abcdbcdecdefdefgefghfghighijhijkijkljklmklmnlmnomnopnopq"))
  = "248d6a61d20638b8e5c026930c3e6039a33ce45964ff2167f6ecedd419db06c1"%string.
Proof. vm_compute. reflexivity. Qed.


(** C10.  The fingerprint is a function of the concatenation of the IP
    address and the User-Agent: two pairs with the same concatenation get
    the same fingerprint. *)
Theorem Generate_concatenation (ip1 ua1 ip2 ua2 : string) :
  (ip1 ++ ua1)%string = (ip2 ++ ua2)%string ->
  Fingerprint.Generate ip1 ua1 = Fingerprint.Generate ip2 ua2.
Proof.
  intros H. unfold Fingerprint.Generate, Fingerprint.Sprintf_ss.
  rewrite H. reflexivity.
Qed.

(** Two different clients with one fingerprint. *)
Lemma Generate_concatenation_witness :
  ("10.0.0.1" ++ "2curl")%string = ("10.0.0.12" ++ "curl")%string /\
  ("10.0.0.1"%string, "2curl"%string) <> ("10.0.0.12"%string, "curl"%string) /\
  Fingerprint.Generate "10.0.0.1" "2curl" = Fingerprint.Generate "10.0.0.12" "curl".
Proof.
  split; [reflexivity|].
  split; [discriminate|].
  apply (Generate_concatenation "10.0.0.1" "2curl" "10.0.0.12" "curl").
  reflexivity.
Defined.

(** ** Proof steps for the methods *)

Ltac unfold_go :=
  cbv [attempt_body publish_once wait_and_continue reconnect connect isHealthy
       publishWithConfirm Close locked bind ret get modify emit skip log deref
       is_nil negb result_of state_of trace_of fails_with succeeds].

(** Split on the innermost scrutinee of a [match] of the goal. *)
Ltac break_match :=
  match goal with
  | |- context [match ?x with _ => _ end] =>
      lazymatch x with
      | context [match _ with _ => _ end] => fail
      | _ => destruct x eqn:?
      end
  end.

Ltac break_all := repeat (break_match; cbn in *; try discriminate).

(** Open a call on a publisher [p] and answers [e] given by their fields. *)
Ltac run_with p e :=
  unfold_go;
  destruct p as [pc pch pcf pex pmr pbd pto purl], e as [ecl [ed eo em] ep ew eb];
  cbn in *; subst; cbn.

(** ** One publish-and-confirm cycle *)

(** C5.  Once the submission has succeeded, [publishWithConfirm] ends in
    exactly one of three ways: a confirmation is received, and the call
    returns nil when it is positive and the nack error otherwise; the context
    is done, and the call returns its error; the timer fires, and the call
    returns the timeout error.  The value returned tells which. *)
Theorem publishWithConfirm_three_outcomes
    (ctx : Context) (e : attempt_env) (routingKey body : string)
    (p : Publisher) (ch : Channel) :
  channel p = Some ch ->
  publish_result e = None ->
  let r := result_of (publishWithConfirm ctx e routingKey body p) in
  let confirmed :=
    exists c, confirm_wait e = GotConfirm c /\
              r = Normal (if Ack c then None else Some nack_error) in
  let cancelled := confirm_wait e = ConfirmCtxDone /\ r = Normal (Some (ctx_Err ctx)) in
  let timed_out := confirm_wait e = ConfirmTimeout /\ r = Normal (Some timeout_error) in
  ((confirmed /\ ~ cancelled /\ ~ timed_out) \/
   (~ confirmed /\ cancelled /\ ~ timed_out) \/
   (~ confirmed /\ ~ cancelled /\ timed_out)) /\
  (r = Normal None \/ r = Normal (Some nack_error) ->
   exists c, confirm_wait e = GotConfirm c) /\
  (r = Normal (Some (ctx_Err ctx)) -> confirm_wait e = ConfirmCtxDone) /\
  (r = Normal (Some timeout_error) -> confirm_wait e = ConfirmTimeout).
Proof.
  intros Hch Hpub. unfold_go. rewrite Hch, Hpub. cbn.
  destruct (confirm_wait e) as [c| |] eqn:Hw; cbn.
  - repeat split.
    + left. split; [|split].
      * exists c. split; [reflexivity|]. destruct (Ack c); reflexivity.
      * intros [H _]; discriminate.
      * intros [H _]; discriminate.
    + intros _. exists c. reflexivity.
    + destruct (Ack c), ctx; discriminate.
    + destruct (Ack c); discriminate.
  - repeat split.
    + right. left. split; [|split].
      * intros [c [H _]]; discriminate.
      * split; reflexivity.
      * intros [H _]; discriminate.
    + intros [H|H]; destruct ctx; discriminate.
    + destruct ctx; discriminate.
  - repeat split.
    + right. right. split; [|split].
      * intros [c [H _]]; discriminate.
      * intros [H _]; discriminate.
      * split; reflexivity.
    + intros [H|H]; discriminate.
    + destruct ctx; discriminate.
Qed.

Lemma publishWithConfirm_three_outcomes_witness :
  channel Sample.connected = Some (Chan 1) /\
  publish_result Sample.nacked = None /\
  exists c, confirm_wait Sample.nacked = GotConfirm c.
Proof.
  split; [reflexivity|]. split; [reflexivity|].
  destruct (publishWithConfirm_three_outcomes CancelContext Sample.nacked
              Sample.routing_key "{}" Sample.connected (Chan 1)
              eq_refl eq_refl) as [_ [H _]].
  apply H. right. reflexivity.
Defined.

(** ** Shutdown *)

(** C6, as the code has it.  Two calls of [Close] in a row never panic.  The
    first closes the channel, then the connection, and leaves no channel.
    When it returned nil, the second closes nothing, returns nil as well
    (it reports no error) and leaves the publisher as it found it. *)
Theorem Close_twice (p : Publisher) (e1 e2 : close_env) :
  let first := Close e1 p in
  let second := Close e2 (state_of first) in
  result_of first <> Panic /\
  result_of second <> Panic /\
  closes (trace_of first)
  = match channel p with Some ch => [ChannelHandle ch] | None => [] end
    ++ match conn p with Some c => [ConnHandle c] | None => [] end /\
  channel (state_of first) = None /\
  (result_of first = Normal None ->
   closes (trace_of second) = [] /\
   result_of second = Normal None /\
   state_of second = state_of first).
Proof.
  unfold_go.
  destruct p as [[c|] [ch|] cf ex mr bd pt url]; cbn;
    destruct (channel_close e1), (conn_close e1), (channel_close e2), (conn_close e2);
    cbn; repeat split; try discriminate; try reflexivity.
Qed.

Lemma Close_twice_witness :
  result_of (Close Sample.closes_cleanly Sample.connected) = Normal None /\
  result_of (Close Sample.closes_cleanly
               (state_of (Close Sample.closes_cleanly Sample.connected)))
  = Normal None.
Proof.
  split; [reflexivity|].
  destruct (Close_twice Sample.connected Sample.closes_cleanly Sample.closes_cleanly)
    as [_ [_ [_ [_ H]]]].
  apply H. reflexivity.
Defined.

(** The claim C6 as stated fails: after a clean first [Close], the second
    call returns nil, not an error that tells that the publisher was closed
    already. *)
Lemma Close_second_call_reports_nothing :
  ~ exists err,
      result_of (Close Sample.closes_cleanly
                   (state_of (Close Sample.closes_cleanly Sample.connected)))
      = Normal (Some err).
Proof. intros [err H]. vm_compute in H. discriminate. Qed.

(** When the first [Close] could not close the connection, it keeps the
    handle, and the second call closes that connection again. *)
Lemma Close_retries_connection (p : Publisher) (c : Connection) (err : error)
    (e1 e2 : close_env) :
  conn p = Some c ->
  conn_close e1 = Some err ->
  result_of (Close e1 p) = Normal (Some err) /\
  closes (trace_of (Close e2 (state_of (Close e1 p)))) = [ConnHandle c].
Proof.
  intros Hc He. unfold_go.
  destruct p as [c0 [ch|] cf ex mr bd pt url], e1 as [cc1 nc1], e2 as [cc2 nc2];
    cbn in *; subst c0 nc1; destruct cc1, nc2; cbn; split; reflexivity.
Qed.

(** ** The lock *)

(** C8, as the code has it.  [publishWithConfirm] takes the lock once, at
    its start, to read the two handles, and releases it before anything
    else; no call to the broker and no wait happens while it or [isHealthy]
    holds the lock.  [connect] holds the lock over its whole body, the dial
    of the broker included. *)
Theorem lock_scope (ctx : Context) (e : attempt_env) (routingKey body : string)
    (p : Publisher) :
  firstn 2 (trace_of (publishWithConfirm ctx e routingKey body p)) = [EvLock; EvUnlock] /\
  ~ In EvLock (skipn 2 (trace_of (publishWithConfirm ctx e routingKey body p))) /\
  held_across_io false (trace_of (publishWithConfirm ctx e routingKey body p)) = false /\
  held_across_io false (trace_of (isHealthy (conn_closed e) p)) = false /\
  held_across_io false (trace_of (connect (connecting e) p)) = true /\
  lock_at_dial false (trace_of (connect (connecting e) p)) = [true].
Proof.
  unfold_go.
  destruct p as [[c|] [ch|] cf ex mr bd pt url]; cbn;
    destruct (conn_closed e), (publish_result e), (confirm_wait e) as [[tag [|]]| |],
             (dial (connecting e)), (open_channel (connecting e)),
             (confirm_mode (connecting e)); cbn;
    repeat split; intuition discriminate.
Qed.

(** The claim C8 as stated fails: [connect] dials the broker with the lock
    held. *)
Lemma connect_dials_under_lock :
  trace_of (connect Sample.broker_up Sample.connected)
  = [EvLock; EvChannelClose (Chan 1); EvConnClose (Conn 1);
     EvDial "amqps://broker.example:5671"; EvOpenChannel (Conn 1);
     EvConfirm (Chan 1); EvNotifyPublish (Chan 1);
     EvLog Info "RabbitMQ publisher connected"
           [zapString "exchange" "energy-metering.ingest.exchange"];
     EvUnlock] /\
  held_across_io false (trace_of (connect Sample.broker_up Sample.connected)) <> false.
Proof. split; [reflexivity | vm_compute; discriminate]. Qed.

(** ** No attempt at all *)

Lemma Publish_runs_loop ctx w routingKey msg body p :
  json_Marshal msg = inl body ->
  Publish ctx w routingKey msg p
  = Publish_loop (S (Z.to_nat (maxRetries p))) ctx w routingKey body 1 None p.
Proof.
  intros Hm. unfold Publish. rewrite Hm. cbv [bind get].
  destruct (Publish_loop _ ctx w routingKey body 1 None p) as [[r p2] t2].
  reflexivity.
Qed.

(** C9.  With [maxRetries] at 0 or below, [Publish] of a serializable message
    returns at once: nothing is asked of the broker, the publisher is left as
    it was, and the error returned wraps nil. *)
Theorem Publish_no_attempts (ctx : Context) (w : world) (routingKey : string)
    (msg : message) (body : string) (p : Publisher) :
  json_Marshal msg = inl body ->
  maxRetries p <= 0 ->
  Publish ctx w routingKey msg p
  = (Normal (Some (Errorf_attempts (maxRetries p) None)), p, []) /\
  Unwrap (Errorf_attempts (maxRetries p) None) = None /\
  is_aggregate (Errorf_attempts (maxRetries p) None) = true.
Proof.
  intros Hm Hn. rewrite (Publish_runs_loop _ _ _ _ _ _ Hm).
  cbn [Publish_loop]. cbv [bind get ret].
  replace (1 <=? maxRetries p) with false by (symmetry; apply Z.leb_gt; lia).
  split; [reflexivity|]. split; reflexivity.
Qed.

Lemma Publish_no_attempts_witness :
  Publish CancelContext (Sample.always Sample.acked) Sample.routing_key
          Sample.reading (Sample.fresh 0 100)
  = (Normal (Some (wrapNil "failed to publish after 0 attempts: %!w(<nil>)")),
     Sample.fresh 0 100, []).
Proof.
  destruct (Publish_no_attempts CancelContext (Sample.always Sample.acked)
              Sample.routing_key Sample.reading "{}" (Sample.fresh 0 100)
              eq_refl) as [H _].
  - vm_compute. discriminate.
  - exact H.
Defined.

(** ** One iteration of the retry loop *)

Section Iteration.

Variables (ctx : Context) (e : attempt_env) (routingKey body : string).
Variables (a : Z) (p : Publisher).

Let run := attempt_body ctx e routingKey body a p.

(** An iteration changes the handles only. *)
Lemma attempt_body_config :
  maxRetries (state_of run) = maxRetries p /\
  retryBaseDelay (state_of run) = retryBaseDelay p /\
  rabbitMQURL (state_of run) = rabbitMQURL p.
Proof. subst run. unfold_go. cbn. break_all; auto. Qed.

(** The nil checks of the code cover every dereference, and an iteration
    has no loop of its own. *)
Lemma attempt_body_no_panic : result_of run <> Panic /\ result_of run <> OutOfFuel.
Proof. subst run. unfold_go. cbn. break_all; split; discriminate. Qed.

(** A failed iteration waits once when attempts remain, and not at all
    otherwise; a successful one does not wait. *)
Lemma attempt_body_backoffs :
  backoffs (trace_of run)
  = if failed (result_of run) && (a <? maxRetries p)
    then [backoff_delay p a] else [].
Proof. subst run. unfold_go. cbn. break_all; reflexivity. Qed.

(** The errors of an iteration are not the error [Publish] builds after the
    loop. *)
Lemma attempt_body_error_shape (err : error) :
  result_of run = Normal (Continue err) -> is_aggregate err = false.
Proof.
  subst run. unfold_go. cbn. break_all; intros H; inversion H; subst;
    try reflexivity; destruct ctx; reflexivity.
Qed.

(** With attempts left and the context done at the backoff wait, an
    iteration that fails makes [Publish] return the context's error. *)
Lemma attempt_body_ctx_done :
  a < maxRetries p ->
  backoff_wait e = BackoffCtxDone ->
  (confirm_wait e = ConfirmCtxDone \/ failed (result_of run) = true) ->
  result_of run = Normal (Return (Some (ctx_Err ctx))).
Proof.
  intros Ha Hb Hc. apply Z.ltb_lt in Ha.
  subst run. revert Hc. unfold_go. cbn. rewrite Hb.
  break_all; intros [H|H]; try discriminate; try reflexivity;
    rewrite ?Ha in *; try discriminate; try reflexivity.
Qed.

(** Without a channel the iteration dials the broker first. *)
Lemma attempt_body_redials :
  channel p = None -> dials (trace_of run) = [rabbitMQURL p].
Proof.
  intros Hc. subst run. unfold_go. rewrite Hc. cbn. break_all; reflexivity.
Qed.

(** Without a channel and with the broker out of reach, the iteration
    fails and leaves the publisher without a channel. *)
Lemma attempt_body_dial_fails (err : error) :
  channel p = None ->
  dial (connecting e) = inr err ->
  failed (result_of run) = true /\ channel (state_of run) = None.
Proof.
  intros Hc Hd. subst run. unfold_go. rewrite Hc, Hd. cbn.
  break_all; auto.
Qed.

(** How the answers of the environment decide an iteration on a publisher
    that holds its handles: a positive acknowledgment, a negative one, no
    acknowledgment in time. *)
Lemma attempt_acked (c : Connection) (ch : Channel) (cf : Confirmation) :
  conn p = Some c -> channel p = Some ch ->
  conn_closed e = false -> publish_result e = None ->
  confirm_wait e = GotConfirm cf -> Ack cf = true ->
  succeeds run.
Proof.
  intros Hc Hch Hcl Hp Hw Ha. subst run. run_with p e. rewrite Ha. reflexivity.
Qed.

Lemma attempt_nacked (c : Connection) (ch : Channel) (cf : Confirmation) :
  conn p = Some c -> channel p = Some ch ->
  conn_closed e = false -> publish_result e = None ->
  confirm_wait e = GotConfirm cf -> Ack cf = false ->
  backoff_wait e = BackoffElapsed ->
  fails_with run nack_error.
Proof.
  intros Hc Hch Hcl Hp Hw Ha Hb. subst run. run_with p e. rewrite Ha. cbn.
  destruct (a <? pmr); reflexivity.
Qed.

Lemma attempt_timed_out (c : Connection) (ch : Channel) :
  conn p = Some c -> channel p = Some ch ->
  conn_closed e = false -> publish_result e = None ->
  confirm_wait e = ConfirmTimeout ->
  backoff_wait e = BackoffElapsed ->
  fails_with run timeout_error.
Proof.
  intros Hc Hch Hcl Hp Hw Hb. subst run. run_with p e.
  destruct (a <? pmr); reflexivity.
Qed.

(** A connection found closed and a broker out of reach: the reconnect
    fails, and its error is the iteration's. *)
Lemma attempt_reconnect_failed (err : error) :
  conn_closed e = true ->
  dial (connecting e) = inr err ->
  backoff_wait e = BackoffElapsed ->
  fails_with run
    (Errorf_w "reconnect failed: "
       (Some (Errorf_w "failed to connect to RabbitMQ: " (Some err)))).
Proof.
  intros Hcl Hd Hb. subst run. run_with p e.
  destruct pc, pch; cbn; destruct (a <? pmr); reflexivity.
Qed.

End Iteration.

(** ** The retry loop *)

Section Loop.

Variables (ctx : Context) (w : world) (routingKey body : string).

Let loop := fun fuel => Publish_loop fuel ctx w routingKey body.
Let iter := fun n => iterate n ctx w routingKey body.
Let at_ := fun a => attempt_body ctx (w a) routingKey body a.

(** One turn of the loop. *)
Lemma Publish_loop_S fuel a lastErr p :
  loop (S fuel) a lastErr p
  = if a <=? maxRetries p then
      match at_ a p with
      | (Normal (Return r), p1, t1) => (Normal r, p1, t1)
      | (Normal (Continue err), p1, t1) =>
          match loop fuel (Int64.add a 1) (Some err) p1 with
          | (r, p2, t2) => (r, p2, t1 ++ t2)
          end
      | (Panic, p1, t1) => (Panic, p1, t1)
      | (OutOfFuel, p1, t1) => (OutOfFuel, p1, t1)
      end
    else (Normal (Some (Errorf_attempts (maxRetries p) lastErr)), p, []).
Proof.
  subst loop at_. cbn [Publish_loop]. cbv [bind get ret].
  destruct (a <=? maxRetries p); [|reflexivity].
  destruct (attempt_body ctx (w a) routingKey body a p) as [[[[r|err]| |] p1] t1];
    cbn; rewrite ?app_nil_r; try reflexivity.
  destruct (Publish_loop fuel ctx w routingKey body (Int64.add a 1) (Some err) p1)
    as [[r p2] t2].
  reflexivity.
Qed.

Lemma Publish_loop_past fuel a lastErr p :
  maxRetries p < a ->
  loop (S fuel) a lastErr p
  = (Normal (Some (Errorf_attempts (maxRetries p) lastErr)), p, []).
Proof.
  intros Ha. rewrite Publish_loop_S. apply Z.leb_gt in Ha. rewrite Ha. reflexivity.
Qed.

(** Below the largest [int] the counter's increment does not wrap. *)
Lemma counter_next a n :
  1 <= a -> a <= n -> n < Int64.max_int -> Int64.add a 1 = a + 1.
Proof.
  intros H1 H2 H3. apply wrap64_in_range.
  unfold Int64.in_range, Int64.min_int, Int64.max_int in *. lia.
Qed.

Lemma iterate_S n a p :
  iter (S n) a p
  = (fst (iter n (a + 1) (state_of (at_ a p))),
     trace_of (at_ a p) ++ snd (iter n (a + 1) (state_of (at_ a p)))).
Proof.
  subst iter at_. cbn [iterate]. unfold state_of, trace_of.
  destruct (attempt_body ctx (w a) routingKey body a p) as [[r p1] t1]. cbn.
  destruct (iterate n ctx w routingKey body (a + 1) p1) as [p2 t2].
  reflexivity.
Qed.

(** Iterating once more, at the end. *)
Lemma iterate_snoc n a p :
  iter (S n) a p
  = (state_of (at_ (a + Z.of_nat n) (fst (iter n a p))),
     snd (iter n a p) ++ trace_of (at_ (a + Z.of_nat n) (fst (iter n a p)))).
Proof.
  revert a p. induction n as [|n IH]; intros a p.
  - rewrite iterate_S. cbn. rewrite Z.add_0_r, app_nil_r. reflexivity.
  - rewrite iterate_S. rewrite IH. rewrite (iterate_S n a p). cbn [fst snd].
    replace (a + 1 + Z.of_nat n) with (a + Z.of_nat (S n)) by lia.
    rewrite app_assoc. reflexivity.
Qed.

Lemma iterate_maxRetries n a p : maxRetries (fst (iter n a p)) = maxRetries p.
Proof.
  revert a p. induction n as [|n IH]; intros a p; [reflexivity|].
  rewrite iterate_S. cbn [fst]. rewrite IH.
  apply attempt_body_config.
Qed.

(** The iteration the loop reaches after [i] iterations that went on. *)
Let reached := fun a p (i : nat) => at_ (a + Z.of_nat i) (fst (iter i a p)).

(** When the iterations before one all go on and that one returns, the loop
    returns what it returns, having run these iterations and no other. *)
Lemma Publish_loop_returns d : forall fuel a lastErr p r,
  (d < fuel)%nat ->
  1 <= a ->
  a + Z.of_nat d <= maxRetries p <= Int64.max_int ->
  (forall i, (i < d)%nat -> exists err, fails_with (reached a p i) err) ->
  result_of (reached a p d) = Normal (Return r) ->
  loop fuel a lastErr p = (Normal r, fst (iter (S d) a p), snd (iter (S d) a p)).
Proof.
  induction d as [|d IH]; intros fuel a lastErr p r Hf H1 Ha Hfail Hret;
    (destruct fuel as [|fuel]; [lia|]); rewrite Publish_loop_S;
    (replace (a <=? maxRetries p) with true by (symmetry; apply Z.leb_le; lia)).
  - subst reached. cbn in Hret. rewrite Z.add_0_r in Hret.
    rewrite iterate_S. cbn. unfold result_of, state_of, trace_of in *.
    destruct (at_ a p) as [[s p1] t1]. cbn in *. subst s.
    rewrite app_nil_r. reflexivity.
  - destruct (Hfail O ltac:(lia)) as [err Herr].
    subst reached. unfold fails_with in Herr. cbn in Herr.
    rewrite Z.add_0_r in Herr.
    rewrite (iterate_S (S d)).
    rewrite (counter_next a (maxRetries p - 1)) by lia.
    pose proof (attempt_body_config ctx (w a) routingKey body a p) as [Hcfg _].
    fold (at_ a) in Hcfg.
    unfold result_of, state_of, trace_of in *.
    destruct (at_ a p) as [[s p1] t1] eqn:Hrun. cbn in Herr, Hcfg |- *. subst s.
    rewrite (IH fuel (a + 1) (Some err) p1 r).
    + reflexivity.
    + lia.
    + lia.
    + lia.
    + intros i Hi. destruct (Hfail (S i) ltac:(lia)) as [err' H'].
      exists err'. unfold fails_with, result_of in *.
      rewrite iterate_S in H'. cbn [fst] in H'.
      unfold state_of in H'. rewrite Hrun in H'. cbn [fst snd] in H'.
      replace (a + 1 + Z.of_nat i) with (a + Z.of_nat (S i)) by lia.
      exact H'.
    + rewrite iterate_S in Hret. cbn [fst] in Hret.
      unfold state_of in Hret. rewrite Hrun in Hret. cbn [fst snd] in Hret.
      replace (a + 1 + Z.of_nat d) with (a + Z.of_nat (S d)) by lia.
      exact Hret.
Qed.

(** When every iteration up to [maxRetries] goes on, the loop runs them
    all and returns the error built from the last [lastErr]. *)
Lemma Publish_loop_exhausted d : forall fuel a lastErr p,
  (d < fuel)%nat ->
  1 <= a ->
  a + Z.of_nat d = maxRetries p + 1 ->
  maxRetries p < Int64.max_int ->
  (forall i, (i < d)%nat -> exists err, fails_with (reached a p i) err) ->
  exists cause,
    loop fuel a lastErr p
    = (Normal (Some (Errorf_attempts (maxRetries p) cause)),
       fst (iter d a p), snd (iter d a p)) /\
    match d with
    | O => cause = lastErr
    | S d' => exists err, cause = Some err /\ fails_with (reached a p d') err
    end.
Proof.
  induction d as [|d IH]; intros fuel a lastErr p Hf H1 Ha Hmax Hfail;
    (destruct fuel as [|fuel]; [lia|]).
  - exists lastErr. split; [|reflexivity].
    rewrite Publish_loop_past by lia. reflexivity.
  - rewrite Publish_loop_S.
    replace (a <=? maxRetries p) with true by (symmetry; apply Z.leb_le; lia).
    destruct (Hfail O ltac:(lia)) as [err Herr].
    pose proof Herr as Herr0.
    subst reached. unfold fails_with in Herr. cbn in Herr.
    rewrite Z.add_0_r in Herr.
    rewrite (iterate_S d).
    rewrite (counter_next a (maxRetries p)) by lia.
    pose proof (attempt_body_config ctx (w a) routingKey body a p) as [Hcfg _].
    fold (at_ a) in Hcfg.
    unfold result_of, state_of, trace_of in *.
    destruct (at_ a p) as [[s p1] t1] eqn:Hrun. cbn in Herr, Hcfg |- *. subst s.
    destruct (IH fuel (a + 1) (Some err) p1) as [cause [Hloop Hcause]].
    + lia.
    + lia.
    + lia.
    + lia.
    + intros i Hi. destruct (Hfail (S i) ltac:(lia)) as [err' H'].
      exists err'. unfold fails_with, result_of in *.
      rewrite iterate_S in H'. cbn [fst] in H'.
      unfold state_of in H'. rewrite Hrun in H'. cbn [fst snd] in H'.
      replace (a + 1 + Z.of_nat i) with (a + Z.of_nat (S i)) by lia.
      exact H'.
    + exists cause. rewrite Hloop, Hcfg. split; [reflexivity|].
      destruct d as [|d'].
      * exists err. split; [exact Hcause|]. exact Herr0.
      * destruct Hcause as [err' [Hc H']]. exists err'. split; [exact Hc|].
        unfold fails_with, result_of in *.
        rewrite iterate_S. cbn [fst]. unfold state_of. rewrite Hrun. cbn [fst snd].
        replace (a + Z.of_nat (S d')) with (a + 1 + Z.of_nat d') by lia.
        exact H'.
Qed.

End Loop.

(** ** Whole calls of [Publish] *)

Lemma string_app_assoc (s1 s2 s3 : string) :
  ((s1 ++ s2) ++ s3)%string = (s1 ++ (s2 ++ s3))%string.
Proof. induction s1 as [|c s1 IH]; cbn; [reflexivity | rewrite IH; reflexivity]. Qed.

Lemma nth_attempt_reached ctx w routingKey body p (i : nat) :
  nth_attempt ctx w routingKey body p (1 + Z.of_nat i)
  = attempt_body ctx (w (1 + Z.of_nat i)) routingKey body (1 + Z.of_nat i)
      (fst (iterate i ctx w routingKey body 1 p)).
Proof.
  unfold nth_attempt. replace (Z.to_nat (1 + Z.of_nat i - 1)) with i by lia.
  reflexivity.
Qed.

(** C1.  When the attempts before attempt [k <= maxRetries] fail and the loop
    goes on each time, and attempt [k] publishes and is acknowledged,
    [Publish] returns nil. *)
Theorem Publish_eventual_success (ctx : Context) (w : world)
    (routingKey : string) (msg : message) (body : string) (p : Publisher) (k : Z) :
  json_Marshal msg = inl body ->
  Int64.in_range (maxRetries p) ->
  1 <= k <= maxRetries p ->
  (forall j, 1 <= j < k ->
     exists err, fails_with (nth_attempt ctx w routingKey body p j) err) ->
  succeeds (nth_attempt ctx w routingKey body p k) ->
  result_of (Publish ctx w routingKey msg p) = Normal None.
Proof.
  intros Hm [_ Hmax] Hk Hfail Hok.
  rewrite (Publish_runs_loop _ _ _ _ _ _ Hm).
  rewrite (Publish_loop_returns ctx w routingKey body (Z.to_nat (k - 1))
             (S (Z.to_nat (maxRetries p))) 1 None p None).
  - reflexivity.
  - lia.
  - lia.
  - lia.
  - intros i Hi. rewrite <- nth_attempt_reached. apply Hfail. lia.
  - rewrite <- nth_attempt_reached.
    replace (1 + Z.of_nat (Z.to_nat (k - 1))) with k by lia. exact Hok.
Qed.

Lemma Publish_eventual_success_witness :
  result_of (Publish CancelContext (Sample.until 3 Sample.nacked Sample.acked)
               Sample.routing_key Sample.reading Sample.connected)
  = Normal None.
Proof.
  apply (Publish_eventual_success CancelContext
           (Sample.until 3 Sample.nacked Sample.acked)
           Sample.routing_key Sample.reading "{}" Sample.connected 3).
  - reflexivity.
  - vm_compute. split; discriminate.
  - vm_compute. split; discriminate.
  - intros j Hj. exists nack_error.
    assert (j = 1 \/ j = 2) as [->| ->] by lia; reflexivity.
  - reflexivity.
Defined.

(** C2.  When all [maxRetries >= 1] attempts fail and the loop goes on each
    time, [Publish] returns one error built after the loop: its message
    names [maxRetries] attempts, it wraps the error of the last attempt, and
    it is not the error of any attempt. *)
Theorem Publish_exhausted (ctx : Context) (w : world)
    (routingKey : string) (msg : message) (body : string) (p : Publisher) :
  json_Marshal msg = inl body ->
  counter_fits p ->
  1 <= maxRetries p ->
  (forall j, 1 <= j <= maxRetries p ->
     exists err, fails_with (nth_attempt ctx w routingKey body p j) err) ->
  exists cause,
    fails_with (nth_attempt ctx w routingKey body p (maxRetries p)) cause /\
    result_of (Publish ctx w routingKey msg p)
    = Normal (Some (Errorf_attempts (maxRetries p) (Some cause))) /\
    Error (Errorf_attempts (maxRetries p) (Some cause))
    = ("failed to publish after " ++ verb_d (maxRetries p) ++ " attempts: "
       ++ Error cause)%string /\
    Unwrap (Errorf_attempts (maxRetries p) (Some cause)) = Some cause /\
    (forall j err, 1 <= j <= maxRetries p ->
       fails_with (nth_attempt ctx w routingKey body p j) err ->
       err <> Errorf_attempts (maxRetries p) (Some cause)).
Proof.
  intros Hm [_ Hmax] Hn Hfail.
  rewrite (Publish_runs_loop _ _ _ _ _ _ Hm).
  destruct (Publish_loop_exhausted ctx w routingKey body (Z.to_nat (maxRetries p))
              (S (Z.to_nat (maxRetries p))) 1 None p) as [cause [Hloop Hcause]].
  - lia.
  - lia.
  - lia.
  - exact Hmax.
  - intros i Hi. rewrite <- nth_attempt_reached. apply Hfail. lia.
  - destruct (Z.to_nat (maxRetries p)) as [|d] eqn:Hd; [lia|].
    destruct Hcause as [err [-> Herr]].
    rewrite <- nth_attempt_reached in Herr.
    replace (1 + Z.of_nat d) with (maxRetries p) in Herr by lia.
    exists err. split; [exact Herr|].
    split; [rewrite Hloop; reflexivity|].
    split; [cbn; rewrite string_app_assoc; reflexivity|].
    split; [reflexivity|].
    intros j err' Hj Hj' Heq.
    apply attempt_body_error_shape in Hj'. rewrite Heq in Hj'.
    discriminate.
Qed.

Lemma Publish_exhausted_witness :
  exists cause,
    fails_with (nth_attempt CancelContext (Sample.always Sample.nacked)
                  Sample.routing_key "{}" Sample.connected 3) cause /\
    result_of (Publish CancelContext (Sample.always Sample.nacked)
                 Sample.routing_key Sample.reading Sample.connected)
    = Normal (Some (Errorf_attempts 3 (Some cause))).
Proof.
  destruct (Publish_exhausted CancelContext (Sample.always Sample.nacked)
              Sample.routing_key Sample.reading "{}" Sample.connected)
    as [cause [H1 [H2 _]]].
  - reflexivity.
  - vm_compute. split; [discriminate | reflexivity].
  - vm_compute. discriminate.
  - intros j Hj. exists nack_error.
    assert (j = 1 \/ j = 2 \/ j = 3) as [->| [->| ->]]
      by (change (maxRetries Sample.connected) with 3 in Hj; lia);
      reflexivity.
  - exists cause. split; [exact H1 | exact H2].
Defined.

(** ** Backoff *)

Lemma backoffs_app t1 t2 : backoffs (t1 ++ t2) = backoffs t1 ++ backoffs t2.
Proof.
  induction t1 as [|ev t1 IH]; [reflexivity|].
  destruct ev; cbn; rewrite ?IH; reflexivity.
Qed.

Lemma backoff_delay_config p p' a :
  retryBaseDelay p' = retryBaseDelay p -> backoff_delay p' a = backoff_delay p a.
Proof. intros H. unfold backoff_delay. rewrite H. reflexivity. Qed.

Lemma iterate_retryBaseDelay ctx w routingKey body n : forall a p,
  retryBaseDelay (fst (iterate n ctx w routingKey body a p)) = retryBaseDelay p.
Proof.
  induction n as [|n IH]; intros a p; [reflexivity|].
  rewrite iterate_S. cbn [fst]. rewrite IH.
  apply attempt_body_config.
Qed.

(** The waits of the loop from attempt [a] on are those of attempts [a],
    [a+1], ... in turn, and stop before attempt [maxRetries]. *)
Lemma Publish_loop_backoffs ctx w routingKey body fuel : forall a lastErr p,
  1 <= a ->
  maxRetries p < Int64.max_int ->
  exists m : nat,
    (m = O \/ a + Z.of_nat m <= maxRetries p) /\
    backoffs (trace_of (Publish_loop fuel ctx w routingKey body a lastErr p))
    = map (fun i => backoff_delay p (a + Z.of_nat i)) (seq 0 m).
Proof.
  induction fuel as [|fuel IH]; intros a lastErr p H1 Hmax.
  - exists O. split; [left; reflexivity | reflexivity].
  - rewrite Publish_loop_S.
    destruct (a <=? maxRetries p) eqn:Hle;
      [|exists O; split; [left; reflexivity | reflexivity]].
    apply Z.leb_le in Hle.
    rewrite (counter_next a (maxRetries p)) by lia.
    pose proof (attempt_body_backoffs ctx (w a) routingKey body a p) as Hb.
    pose proof (attempt_body_config ctx (w a) routingKey body a p) as [Hn [Hd _]].
    pose proof (attempt_body_no_panic ctx (w a) routingKey body a p) as [Hnp Hnf].
    unfold result_of, state_of, trace_of in *.
    destruct (attempt_body ctx (w a) routingKey body a p) as [[[[r|err]| |] p1] t1];
      cbn [fst snd] in *; [| |congruence|congruence].
    + destruct (failed (Normal (Return r)) && (a <? maxRetries p)) eqn:Hw.
      * exists 1%nat. apply andb_prop in Hw. destruct Hw as [_ Hw].
        apply Z.ltb_lt in Hw. split; [right; lia|].
        cbn. rewrite Z.add_0_r. exact Hb.
      * exists O. split; [left; reflexivity | exact Hb].
    + destruct (IH (a + 1) (Some err) p1) as [m [Hm Ht]]; [lia | lia |].
      destruct (Publish_loop fuel ctx w routingKey body (a + 1) (Some err) p1)
        as [[r2 p2] t2]. cbn [fst snd] in *.
      rewrite backoffs_app, Hb, Ht. cbn [failed andb].
      destruct (a <? maxRetries p) eqn:Hlt.
      * apply Z.ltb_lt in Hlt. exists (S m). split.
        -- right. destruct Hm as [->|Hm]; lia.
        -- cbn [seq map app]. rewrite Z.add_0_r. f_equal.
           rewrite <- seq_shift, map_map. apply map_ext. intros i.
           rewrite (backoff_delay_config p p1) by exact Hd.
           f_equal. lia.
      * apply Z.ltb_ge in Hlt. exists O.
        destruct Hm as [->|Hm]; [|lia].
        split; [left; reflexivity | reflexivity].
Qed.

(** C3, as the code has it.  In a [Publish] call, a failed attempt [k] is
    followed by one wait when [k < maxRetries] and by none otherwise.  The
    delay is [retryBaseDelay * 2^(k-1)] reduced to 64 bits, hence that
    product itself when it fits an [int64].  The waits of the whole call are
    those of attempts 1, 2, ... in turn, fewer than [maxRetries] of them. *)
Theorem backoff_schedule (ctx : Context) (w : world)
    (routingKey : string) (msg : message) (body : string) (p : Publisher) :
  json_Marshal msg = inl body ->
  counter_fits p ->
  (forall k, 1 <= k ->
     failed (result_of (nth_attempt ctx w routingKey body p k)) = true ->
     backoffs (trace_of (nth_attempt ctx w routingKey body p k))
     = (if k <? maxRetries p
        then [Int64.wrap64 (retryBaseDelay p * 2 ^ (k - 1))] else []) /\
     (k < maxRetries p ->
      Int64.in_range (retryBaseDelay p * 2 ^ (k - 1)) ->
      backoffs (trace_of (nth_attempt ctx w routingKey body p k))
      = [retryBaseDelay p * 2 ^ (k - 1)])) /\
  (exists m : nat,
     Z.of_nat m < Z.max 1 (maxRetries p) /\
     backoffs (trace_of (Publish ctx w routingKey msg p))
     = map (fun i => Int64.wrap64 (retryBaseDelay p * 2 ^ Z.of_nat i)) (seq 0 m)).
Proof.
  intros Hm [_ Hmax]. split.
  - intros k Hk Hfailed.
    assert (backoffs (trace_of (nth_attempt ctx w routingKey body p k))
            = (if k <? maxRetries p
               then [Int64.wrap64 (retryBaseDelay p * 2 ^ (k - 1))] else [])) as Hb.
    { unfold nth_attempt in *. rewrite attempt_body_backoffs, Hfailed.
      rewrite iterate_maxRetries. cbn [andb].
      destruct (k <? maxRetries p) eqn:Hlt; [|reflexivity].
      apply Z.ltb_lt in Hlt.
      rewrite (backoff_delay_config p) by apply iterate_retryBaseDelay.
      rewrite backoff_delay_wrap by lia. reflexivity. }
    split; [exact Hb|].
    intros Hlt Hfit. rewrite Hb. apply Z.ltb_lt in Hlt. rewrite Hlt.
    rewrite wrap64_in_range by exact Hfit. reflexivity.
  - rewrite (Publish_runs_loop _ _ _ _ _ _ Hm).
    destruct (Publish_loop_backoffs ctx w routingKey body
                (S (Z.to_nat (maxRetries p))) 1 None p) as [m [Hb Ht]];
      [lia | exact Hmax |].
    exists m. split; [destruct Hb as [->|Hb]; lia|].
    rewrite Ht. apply map_ext_in. intros i Hi. apply in_seq in Hi.
    rewrite backoff_delay_wrap by (destruct Hb as [->|Hb]; lia).
    replace (1 + Z.of_nat i - 1) with (Z.of_nat i) by lia. reflexivity.
Qed.

Lemma backoff_schedule_witness :
  backoffs (trace_of (nth_attempt CancelContext (Sample.always Sample.nacked)
                        Sample.routing_key "{}" Sample.connected 2))
  = [200000000].
Proof.
  destruct (backoff_schedule CancelContext (Sample.always Sample.nacked)
              Sample.routing_key Sample.reading "{}" Sample.connected) as [H _].
  - reflexivity.
  - unfold counter_fits, Int64.min_int, Int64.max_int. cbn. lia.
  - destruct (H 2) as [_ H2].
    + lia.
    + reflexivity.
    + apply H2.
      * reflexivity.
      * unfold Int64.in_range, Int64.min_int, Int64.max_int. cbn. lia.
Defined.

(** The claim C3 as stated fails: with a base delay of 4611686018428 ms the
    product for attempt 2 does not fit an [int64], and the delay waited is
    the wrapped, negative value, on which the timer fires at once. *)
Lemma backoff_delay_overflows :
  let p := Sample.fresh 3 4611686018428 in
  let second := nth_attempt CancelContext (Sample.always Sample.nacked)
                  Sample.routing_key "{}" p 2 in
  retryBaseDelay p = 4611686018428000000 /\
  failed (result_of second) = true /\
  backoffs (trace_of second) = [-9223372036853551616] /\
  backoffs (trace_of second) <> [retryBaseDelay p * 2 ^ (2 - 1)].
Proof.
  cbv zeta. split; [reflexivity|]. split; [reflexivity|].
  split; [reflexivity|]. vm_compute. discriminate.
Qed.

(** ** Cancellation *)

(** C4, as the code has it.  When the context is done during the backoff
    wait that follows a failed attempt [k < maxRetries], be it that the
    context ended during the confirmation wait of that attempt or during the
    backoff wait itself, [Publish] returns the context's error itself, having
    run attempts 1 to [k] and no other.  That error is neither the timeout
    error nor the nack error nor the error built after the loop. *)
Theorem Publish_cancelled (ctx : Context) (w : world)
    (routingKey : string) (msg : message) (body : string) (p : Publisher) (k : Z) :
  json_Marshal msg = inl body ->
  Int64.in_range (maxRetries p) ->
  1 <= k < maxRetries p ->
  (forall j, 1 <= j < k ->
     exists err, fails_with (nth_attempt ctx w routingKey body p j) err) ->
  backoff_wait (w k) = BackoffCtxDone ->
  (confirm_wait (w k) = ConfirmCtxDone \/
   failed (result_of (nth_attempt ctx w routingKey body p k)) = true) ->
  Publish ctx w routingKey msg p
  = (Normal (Some (ctx_Err ctx)),
     fst (iterate (Z.to_nat k) ctx w routingKey body 1 p),
     snd (iterate (Z.to_nat k) ctx w routingKey body 1 p)) /\
  ctx_Err ctx <> timeout_error /\
  ctx_Err ctx <> nack_error /\
  is_aggregate (ctx_Err ctx) = false.
Proof.
  intros Hm [_ Hmax] Hk Hfail Hb Hc. split.
  - rewrite (Publish_runs_loop _ _ _ _ _ _ Hm).
    replace (Z.to_nat k) with (S (Z.to_nat (k - 1))) by lia.
    apply Publish_loop_returns.
    + lia.
    + lia.
    + lia.
    + intros i Hi. rewrite <- nth_attempt_reached. apply Hfail. lia.
    + rewrite <- nth_attempt_reached.
      replace (1 + Z.of_nat (Z.to_nat (k - 1))) with k by lia.
      unfold nth_attempt in *. apply attempt_body_ctx_done.
      * rewrite iterate_maxRetries. lia.
      * exact Hb.
      * exact Hc.
  - destruct ctx; repeat split; discriminate.
Qed.

Lemma Publish_cancelled_witness :
  result_of (Publish CancelContext (Sample.until 2 Sample.timed_out Sample.cancelled)
               Sample.routing_key Sample.reading Sample.connected)
  = Normal (Some Canceled).
Proof.
  destruct (Publish_cancelled CancelContext
              (Sample.until 2 Sample.timed_out Sample.cancelled)
              Sample.routing_key Sample.reading "{}" Sample.connected 2)
    as [H _].
  - reflexivity.
  - vm_compute. split; discriminate.
  - change (maxRetries Sample.connected) with 3. lia.
  - intros j Hj. exists timeout_error.
    assert (j = 1) as -> by lia. reflexivity.
  - reflexivity.
  - left. reflexivity.
  - rewrite H. reflexivity.
Defined.

(** The same when the confirmation wait of attempt 2 times out and the
    context ends during the backoff wait that follows. *)
Example Publish_cancelled_in_backoff :
  Publish CancelContext (Sample.until 2 Sample.nacked Sample.cancelled_in_backoff)
          Sample.routing_key Sample.reading Sample.connected
  = (Normal (Some Canceled), Sample.connected,
     snd (iterate 2 CancelContext (Sample.until 2 Sample.nacked Sample.cancelled_in_backoff)
            Sample.routing_key "{}" 1 Sample.connected)).
Proof. reflexivity. Qed.

(** The claim C4 as stated fails at the last attempt: with one attempt
    allowed and the context cancelled during its confirmation wait,
    [Publish] returns the error built after the loop, which wraps the
    context's error, and not that error itself. *)
Lemma Publish_cancelled_last_attempt :
  let p := Sample.fresh 1 100 in
  let r := result_of (Publish CancelContext (Sample.always Sample.cancelled)
                        Sample.routing_key Sample.reading p) in
  confirm_wait (Sample.always Sample.cancelled 1) = ConfirmCtxDone /\
  r = Normal (Some (wrapError "failed to publish after 1 attempts: context canceled"
                              Canceled)) /\
  r <> Normal (Some (ctx_Err CancelContext)).
Proof.
  cbv zeta. split; [reflexivity|]. split; [reflexivity|].
  vm_compute. discriminate.
Qed.

(** ** Publishing after shutdown *)

Lemma dials_app t1 t2 : dials (t1 ++ t2) = dials t1 ++ dials t2.
Proof.
  induction t1 as [|ev t1 IH]; [reflexivity|].
  destruct ev; cbn; rewrite ?IH; reflexivity.
Qed.

Lemma Close_leaves_no_channel e p :
  channel (state_of (Close e p)) = None /\
  maxRetries (state_of (Close e p)) = maxRetries p /\
  rabbitMQURL (state_of (Close e p)) = rabbitMQURL p.
Proof.
  unfold_go. destruct p as [[c|] [ch|] cf ex mr bd pt url]; cbn;
    destruct (channel_close e), (conn_close e); cbn; auto.
Qed.

Lemma isHealthy_without_channel closed p :
  channel p = None -> result_of (isHealthy closed p) = Normal false.
Proof.
  intros H. unfold_go. rewrite H. destruct (conn p), closed; reflexivity.
Qed.

(** Without a channel, with attempts allowed, the loop dials first. *)
Lemma Publish_loop_redials ctx w routingKey body fuel a lastErr p :
  channel p = None ->
  a <= maxRetries p ->
  exists rest,
    dials (trace_of (Publish_loop (S fuel) ctx w routingKey body a lastErr p))
    = rabbitMQURL p :: rest.
Proof.
  intros Hc Ha. rewrite Publish_loop_S.
  replace (a <=? maxRetries p) with true by (symmetry; apply Z.leb_le; lia).
  pose proof (attempt_body_redials ctx (w a) routingKey body a p Hc) as Hd.
  unfold trace_of in *.
  destruct (attempt_body ctx (w a) routingKey body a p) as [[[[r|err]| |] p1] t1];
    cbn [fst snd] in *.
  - exists []. exact Hd.
  - destruct (Publish_loop fuel ctx w routingKey body (Int64.add a 1) (Some err) p1)
      as [[r2 p2] t2]. cbn [snd].
    rewrite dials_app, Hd. eexists. reflexivity.
  - exists []. exact Hd.
  - exists []. exact Hd.
Qed.

(** Without a channel and with the broker out of reach throughout, the loop
    returns an error. *)
Lemma Publish_loop_unreachable ctx w routingKey body fuel : forall a lastErr p,
  channel p = None ->
  (forall k, exists err, dial (connecting (w k)) = inr err) ->
  1 <= a ->
  maxRetries p < Int64.max_int ->
  (Z.to_nat (maxRetries p + 1 - a) < fuel)%nat ->
  exists err,
    result_of (Publish_loop fuel ctx w routingKey body a lastErr p)
    = Normal (Some err).
Proof.
  induction fuel as [|fuel IH]; intros a lastErr p Hc Hw H1 Hmax Hfuel; [lia|].
  rewrite Publish_loop_S.
  destruct (a <=? maxRetries p) eqn:Hle; [|eexists; reflexivity].
  apply Z.leb_le in Hle.
  rewrite (counter_next a (maxRetries p)) by lia.
  destruct (Hw a) as [err Herr].
  pose proof (attempt_body_dial_fails ctx (w a) routingKey body a p err Hc Herr)
    as [Hf Hc'].
  pose proof (attempt_body_config ctx (w a) routingKey body a p) as [Hn _].
  unfold result_of, state_of in *.
  destruct (attempt_body ctx (w a) routingKey body a p) as [[[[[e'|]|err']| |] p1] t1];
    cbn [fst snd] in *; try discriminate.
  - eexists. reflexivity.
  - destruct (IH (a + 1) (Some err') p1 Hc' Hw) as [err2 H2]; [lia | lia | lia |].
    destruct (Publish_loop fuel ctx w routingKey body (a + 1) (Some err') p1)
      as [[r2 p2] t2]. cbn [fst] in *. exists err2. exact H2.
Qed.

(** C7, as the code has it.  [Close] leaves the publisher without a channel,
    hence unhealthy.  The next [Publish], when it is allowed an attempt,
    dials the broker again on its first attempt; it returns nil only after
    such a dial, and it returns an error when it is allowed no attempt or
    when the broker stays out of reach. *)
Theorem Publish_after_Close (ce : close_env) (p : Publisher) (ctx : Context)
    (w : world) (routingKey : string) (msg : message) (body : string) :
  let closed := state_of (Close ce p) in
  json_Marshal msg = inl body ->
  counter_fits p ->
  (forall answer, result_of (isHealthy answer closed) = Normal false) /\
  (1 <= maxRetries p ->
   exists rest,
     dials (trace_of (Publish ctx w routingKey msg closed)) = rabbitMQURL p :: rest) /\
  (result_of (Publish ctx w routingKey msg closed) = Normal None ->
   dials (trace_of (Publish ctx w routingKey msg closed)) <> []) /\
  (maxRetries p <= 0 \/ (forall k, exists err, dial (connecting (w k)) = inr err) ->
   exists err, result_of (Publish ctx w routingKey msg closed) = Normal (Some err)).
Proof.
  intros closed Hm [_ Hmax].
  destruct (Close_leaves_no_channel ce p) as [Hc [Hn Hu]]. fold closed in Hc, Hn, Hu.
  assert (1 <= maxRetries p ->
          exists rest,
            dials (trace_of (Publish ctx w routingKey msg closed))
            = rabbitMQURL p :: rest) as Hdial.
  { intros H1. rewrite (Publish_runs_loop _ _ _ _ _ _ Hm).
    rewrite <- Hu. apply Publish_loop_redials; [exact Hc | lia]. }
  split; [|split; [|split]].
  - intros answer. apply isHealthy_without_channel. exact Hc.
  - exact Hdial.
  - intros Hok. destruct (Z_le_gt_dec 1 (maxRetries p)) as [H1|H0].
    + destruct (Hdial H1) as [rest ->]. discriminate.
    + rewrite (Publish_runs_loop _ _ _ _ _ _ Hm) in Hok.
      rewrite Publish_loop_past in Hok by lia.
      discriminate.
  - intros [H0|Hw]; rewrite (Publish_runs_loop _ _ _ _ _ _ Hm).
    + rewrite Publish_loop_past by lia. eexists. reflexivity.
    + apply Publish_loop_unreachable; try assumption; lia.
Qed.

Lemma Publish_after_Close_witness :
  exists err,
    result_of (Publish CancelContext (Sample.always Sample.unreachable)
                 Sample.routing_key Sample.reading
                 (state_of (Close Sample.closes_cleanly Sample.connected)))
    = Normal (Some err).
Proof.
  destruct (Publish_after_Close Sample.closes_cleanly Sample.connected CancelContext
              (Sample.always Sample.unreachable) Sample.routing_key
              Sample.reading "{}" eq_refl) as [_ [_ [_ H]]].
  - vm_compute. split; [discriminate | reflexivity].
  - apply H. right. intros k. eexists. reflexivity.
Defined.

(** The claim C7 as stated fails: after [Close], a [Publish] that finds the
    broker up dials it again, publishes and returns nil. *)
Lemma Publish_after_Close_succeeds :
  let closed := state_of (Close Sample.closes_cleanly Sample.connected) in
  let r := Publish CancelContext (Sample.always Sample.acked)
             Sample.routing_key Sample.reading closed in
  conn closed = None /\ channel closed = None /\
  result_of r = Normal None /\
  dials (trace_of r) = ["amqps://broker.example:5671"%string].
Proof. cbv zeta. repeat split. Qed.

(** ** Scenarios

    The two end-to-end runs of the specification, with 3 attempts and a base
    delay of 100 ms. *)

(** The broker nacks attempts 1 and 2 and acks attempt 3: [Publish] returns
    nil after waiting 100 ms, then 200 ms. *)
Example scenario_nack_nack_ack :
  let r := Publish CancelContext (Sample.until 3 Sample.nacked Sample.acked)
             Sample.routing_key Sample.reading Sample.connected in
  result_of r = Normal None /\
  backoffs (trace_of r) = [100000000; 200000000] /\
  dials (trace_of r) = [].
Proof. cbv zeta. repeat split. Qed.

(** The broker never answers: [Publish] waits for the confirmation three
    times, 5 s each, backs off twice, and returns the error built after the
    loop. *)
Example scenario_always_timeout :
  let r := Publish CancelContext (Sample.always Sample.timed_out)
             Sample.routing_key Sample.reading Sample.connected in
  result_of r
  = Normal (Some (wrapError "failed to publish after 3 attempts: confirmation timeout"
                            timeout_error)) /\
  backoffs (trace_of r) = [100000000; 200000000] /\
  filter (fun ev => match ev with EvAwaitConfirm _ _ => true | _ => false end)
         (trace_of r)
  = repeat (EvAwaitConfirm (Some (Confirms (Chan 1))) 5000000000) 3.
Proof. cbv zeta. repeat split. Qed.

(** The broker is down when the publisher finds its connection closed, and
    back for the second attempt: the reconnect failure costs attempt 1 and
    its backoff, and attempt 2 publishes on the new channel. *)
Example scenario_reconnect :
  let r := Publish CancelContext (Sample.until 2 Sample.unreachable Sample.recovered)
             Sample.routing_key Sample.reading Sample.connected in
  result_of r = Normal None /\
  backoffs (trace_of r) = [100000000] /\
  dials (trace_of r) = [rabbitMQURL Sample.connected; rabbitMQURL Sample.connected] /\
  channel (state_of r) = Some (Chan 2).
Proof. cbv zeta. repeat split. Qed.

(** * The rest of the service *)

Import MQ Run Config Service Handler Server Observe.

(** ** The fingerprint's format *)

Lemma round_length st kw : length st = 8%nat -> length (SHA256.round st kw) = 8%nat.
Proof.
  intros H. destruct st as [|a [|b [|c [|d [|e [|f [|g [|h [|i st]]]]]]]]];
    try discriminate. reflexivity.
Qed.

Lemma rounds_length kws : forall st,
  length st = 8%nat -> length (fold_left SHA256.round kws st) = 8%nat.
Proof.
  induction kws as [|kw kws IH]; intros st H; [exact H|].
  cbn [fold_left]. apply IH. apply round_length. exact H.
Qed.

Lemma compress_length h block :
  length h = 8%nat -> length (SHA256.compress h block) = 8%nat.
Proof.
  intros H. unfold SHA256.compress.
  rewrite length_map, length_combine, rounds_length by exact H.
  rewrite H. reflexivity.
Qed.

Lemma compresses_length bs : forall h,
  length h = 8%nat -> length (fold_left SHA256.compress bs h) = 8%nat.
Proof.
  induction bs as [|b bs IH]; intros h H; [exact H|].
  cbn [fold_left]. apply IH. apply compress_length. exact H.
Qed.

Lemma be_bytes_bytes n z :
  length (SHA256.be_bytes n z) = n /\ Forall is_byte (SHA256.be_bytes n z).
Proof.
  unfold SHA256.be_bytes. split.
  - rewrite length_map, length_rev, length_seq. reflexivity.
  - apply Forall_map. apply Forall_forall. intros i _.
    apply Z.mod_pos_bound. lia.
Qed.

Lemma Sum256_bytes data :
  length (SHA256.Sum256 data) = 32%nat /\ Forall is_byte (SHA256.Sum256 data).
Proof.
  unfold SHA256.Sum256.
  set (h := fold_left SHA256.compress _ SHA256.H0).
  assert (length h = 8%nat) as Hh by (apply compresses_length; reflexivity).
  destruct h as [|a [|b [|c [|d [|e [|f [|g [|x [|y h]]]]]]]]]; try discriminate.
  split.
  - reflexivity.
  - cbn [flat_map]. rewrite app_nil_r.
    repeat (apply Forall_app; split); apply be_bytes_bytes.
Qed.

Lemma digit_lower_hex n : 0 <= n < 16 -> lower_hex (Hex.digit n) = true.
Proof.
  intros H.
  assert (In n (map Z.of_nat (seq 0 16))) as Hn.
  { apply in_map_iff. exists (Z.to_nat n). split; [lia|].
    apply in_seq. lia. }
  cbn in Hn.
  repeat (destruct Hn as [<-|Hn]; [reflexivity|]). destruct Hn.
Qed.

Lemma EncodeToString_format src :
  Forall is_byte src ->
  String.length (Hex.EncodeToString src) = (2 * length src)%nat /\
  forallb lower_hex (list_ascii_of_string (Hex.EncodeToString src)) = true.
Proof.
  induction 1 as [|b src Hb _ [IHl IHh]]; [split; reflexivity|].
  cbn [Hex.EncodeToString String.length list_ascii_of_string forallb length].
  split; [rewrite IHl; lia|].
  rewrite IHh, !digit_lower_hex; [reflexivity| |].
  - change 15 with (Z.ones 4). rewrite Z.land_ones by lia.
    apply Z.mod_pos_bound. lia.
  - rewrite Z.shiftr_div_pow2 by lia. unfold is_byte in Hb.
    split; [apply Z.div_pos; lia | apply Z.div_lt_upper_bound; lia].
Qed.

(** A fingerprint is 64 lower-case hexadecimal digits, whatever the address
    and the User-Agent, empty ones included. *)
Theorem Generate_format (ipAddress userAgent : string) :
  String.length (Fingerprint.Generate ipAddress userAgent) = 64%nat /\
  forallb lower_hex (list_ascii_of_string (Fingerprint.Generate ipAddress userAgent))
  = true.
Proof.
  unfold Fingerprint.Generate.
  destruct (Sum256_bytes (bytes_of_string (Fingerprint.Sprintf_ss ipAddress userAgent)))
    as [Hl Hb].
  destruct (EncodeToString_format _ Hb) as [Hl' Hh].
  rewrite Hl', Hl. split; [reflexivity | exact Hh].
Qed.

(** ** The configuration *)

Lemma verb_d_nonempty n : verb_d n <> EmptyString.
Proof.
  unfold verb_d. destruct (Z.to_int n) as [d|d]; cbn; [|discriminate].
  destruct d; discriminate.
Qed.

Lemma uint_first_digit c s d :
  NilZero.uint_of_string (String c s) = Some d ->
  Ascii.eqb c "-" = false /\ Ascii.eqb c "+" = false.
Proof.
  cbn. destruct (Ascii.eqb c "-") eqn:E1; [apply Ascii.eqb_eq in E1; subst c|].
  - destruct (NilEmpty.uint_of_string s); discriminate.
  - destruct (Ascii.eqb c "+") eqn:E2; [apply Ascii.eqb_eq in E2; subst c|].
    + destruct (NilEmpty.uint_of_string s); discriminate.
    + split; reflexivity.
Qed.

Lemma in_range_bool n :
  Int64.in_range n -> (Int64.min_int <=? n) && (n <=? Int64.max_int) = true.
Proof.
  intros [H1 H2]. apply andb_true_intro. split; apply Z.leb_le; assumption.
Qed.

(** [strconv.Atoi] reads back what [%d] prints of an [int]. *)
Lemma Atoi_verb_d n : Int64.in_range n -> Atoi (verb_d n) = inl n.
Proof.
  intros Hn. unfold verb_d.
  pose proof (DecimalZ.of_to n) as Hof.
  destruct (Z.to_int n) as [d|d] eqn:Hd; cbn [NilZero.string_of_int].
  - assert (NilZero.uint_of_string (NilZero.string_of_uint d) = Some d) as Hu.
    { apply NilZero.usu. intros ->. destruct n; discriminate. }
    unfold Atoi. destruct (NilZero.string_of_uint d) as [|c s] eqn:Hs;
      [discriminate|].
    destruct (uint_first_digit _ _ _ Hu) as [-> ->]. rewrite Hu.
    cbn in Hof. rewrite Hof, in_range_bool by exact Hn. reflexivity.
  - assert (NilZero.uint_of_string (NilZero.string_of_uint d) = Some d) as Hu.
    { apply NilZero.usu. intros ->. destruct n; discriminate. }
    unfold Atoi. cbn. change (Ascii.eqb "-" "-") with true. cbv iota.
    cbn in Hu. rewrite Hu.
    cbn in Hof. rewrite Hof, in_range_bool by exact Hn. reflexivity.
Qed.

(** What [strconv.Atoi] returns without an error is an [int]. *)
Lemma Atoi_in_range s n : Atoi s = inl n -> Int64.in_range n.
Proof.
  unfold Atoi.
  destruct (match s with
            | String c rest =>
                if Ascii.eqb c "-" then (true, rest)
                else if Ascii.eqb c "+" then (false, rest) else (false, s)
            | EmptyString => (false, s)
            end) as [neg digits].
  destruct (NilZero.uint_of_string digits) as [d|]; [|discriminate].
  destruct ((Int64.min_int <=? (if neg then - Z.of_uint d else Z.of_uint d))
            && ((if neg then - Z.of_uint d else Z.of_uint d) <=? Int64.max_int))
    eqn:E; [|discriminate].
  intros H. inversion H. subst n.
  apply andb_prop in E. destruct E as [E1 E2].
  split; apply Z.leb_le; assumption.
Qed.

Lemma getEnvAsInt_verb_d env key defaultValue n :
  Int64.in_range n -> env key = verb_d n -> getEnvAsInt env key defaultValue = n.
Proof.
  intros Hn He. unfold getEnvAsInt. rewrite He.
  destruct (String.eqb (verb_d n) "") eqn:E.
  - apply String.eqb_eq in E. destruct (verb_d_nonempty n E).
  - rewrite Atoi_verb_d by exact Hn. reflexivity.
Qed.

Lemma getEnvAsInt_in_range env key defaultValue :
  Int64.in_range defaultValue -> Int64.in_range (getEnvAsInt env key defaultValue).
Proof.
  intros Hd. unfold getEnvAsInt. destruct (String.eqb (env key) ""); [exact Hd|].
  destruct (Atoi (env key)) as [v|err] eqn:E; [|exact Hd].
  apply (Atoi_in_range _ _ E).
Qed.

(** An integer variable set to the decimal text of an [int] is read as that
    [int], whatever the default. *)
Theorem getEnvAsInt_reads_int (env : environ) (key : string) (defaultValue n : Z) :
  Int64.in_range n ->
  env key = verb_d n ->
  getEnvAsInt env key defaultValue = n.
Proof. apply getEnvAsInt_verb_d. Qed.

Lemma getEnvAsInt_reads_int_witness :
  getEnvAsInt Cases.env_no_retries "RABBITMQ_MAX_RETRIES" 3 = 0.
Proof.
  apply (getEnvAsInt_reads_int Cases.env_no_retries "RABBITMQ_MAX_RETRIES" 3 0).
  - vm_compute. split; discriminate.
  - reflexivity.
Defined.



Lemma getEnv_nonempty env key defaultValue :
  defaultValue <> EmptyString -> getEnv env key defaultValue <> EmptyString.
Proof.
  intros Hd. unfold getEnv. destruct (String.eqb (env key) "") eqn:E; cbn.
  - exact Hd.
  - apply String.eqb_neq in E. exact E.
Qed.

(** [Load] fails exactly when [RABBITMQ_URL] is unset or empty.  Otherwise it
    returns a configuration with that URL, no empty name, exchange, routing
    key or mode, and [int]s for the numbers, whatever the other variables
    hold. *)
Theorem Load_requires_only_url (env : environ) :
  (env "RABBITMQ_URL"%string = EmptyString ->
   Load env = inr (errorString "RABBITMQ_URL is required")) /\
  (env "RABBITMQ_URL"%string <> EmptyString ->
   exists cfg,
     Load env = inl cfg /\
     RabbitMQURL cfg = env "RABBITMQ_URL"%string /\
     ServiceName cfg <> EmptyString /\
     RabbitMQExchange cfg <> EmptyString /\
     RabbitMQRoutingKey cfg <> EmptyString /\
     GinMode cfg <> EmptyString /\
     Int64.in_range (ServicePort cfg) /\
     Int64.in_range (RabbitMQMaxRetries cfg) /\
     Int64.in_range (RabbitMQRetryBaseDelay cfg) /\
     Int64.in_range (PublishConfirmTimeout cfg)).
Proof.
  assert (forall d, -100000 <= d <= 100000 -> Int64.in_range d) as Hsmall.
  { intros d Hd. unfold Int64.in_range, Int64.min_int, Int64.max_int. lia. }
  split.
  - intros He. unfold Load.
    replace (getEnv env "RABBITMQ_URL" "") with EmptyString
      by (unfold getEnv; rewrite He; reflexivity).
    reflexivity.
  - intros He.
    assert (getEnv env "RABBITMQ_URL" "" = env "RABBITMQ_URL"%string) as Hurl.
    { unfold getEnv. destruct (String.eqb (env "RABBITMQ_URL"%string) "") eqn:E;
        [apply String.eqb_eq in E; contradiction | reflexivity]. }
    unfold Load. rewrite Hurl.
    destruct (String.eqb (env "RABBITMQ_URL"%string) "") eqn:E;
      [apply String.eqb_eq in E; contradiction|].
    eexists. split; [reflexivity|].
    cbn [RabbitMQURL ServiceName RabbitMQExchange RabbitMQRoutingKey GinMode
         ServicePort RabbitMQMaxRetries RabbitMQRetryBaseDelay PublishConfirmTimeout].
    repeat split;
      try (apply getEnv_nonempty; discriminate);
      try (apply getEnvAsInt_in_range; apply Hsmall; lia).
Qed.

Lemma Load_requires_only_url_witness :
  Load (fun _ => EmptyString) = inr (errorString "RABBITMQ_URL is required").
Proof.
  destruct (Load_requires_only_url (fun _ => EmptyString)) as [H _].
  apply H. reflexivity.
Defined.

(** ** Connecting *)

(** [connect] never panics and changes the publisher all at once or not at
    all: a call that fails leaves every field as it was and returns an error
    that wraps the failure of the dial, of the channel or of the confirm
    mode; a call that succeeds installs the new connection, its channel and
    the confirmation channel registered on that channel. *)
Theorem connect_all_or_nothing (e : connect_env) (p : Publisher) :
  let r := connect e p in
  result_of r <> Panic /\
  (forall err, result_of r = Normal (Some err) ->
     state_of r = p /\
     exists cause,
       Unwrap err = Some cause /\
       (dial e = inr cause \/ open_channel e = inr cause \/ confirm_mode e = Some cause)) /\
  (result_of r = Normal None ->
     exists c ch,
       dial e = inl c /\ open_channel e = inl ch /\ confirm_mode e = None /\
       state_of r = set_handles (Some c) (Some ch) (Some (Confirms ch)) p).
Proof.
  unfold_go.
  destruct p as [[c|] [ch|] cf ex mr bd pt url],
           e as [[c'|derr] [ch'|cerr] [merr|]]; cbn;
    (split; [discriminate|]); split;
    try (intros err H; discriminate H);
    try (intros err H; inversion H; subst; split; [reflexivity|];
         eexists; split; [reflexivity|]; auto);
    try (intros H; discriminate H);
    try (intros _; do 2 eexists; repeat split).
Qed.

Lemma connect_all_or_nothing_witness :
  state_of (connect Sample.broker_down Sample.connected) = Sample.connected.
Proof.
  destruct (connect_all_or_nothing Sample.broker_down Sample.connected) as [_ [H _]].
  edestruct H as [Hs _]; [reflexivity | exact Hs].
Defined.

(** [connect] closes the handles the publisher held, channel first, before
    it dials.  When it fails it has also closed every handle the broker
    library gave it during the call, a channel before its connection; when
    it succeeds it has closed nothing else. *)
Theorem connect_leaks_nothing (e : connect_env) (p : Publisher) :
  let r := connect e p in
  (exists rest,
     trace_of r
     = EvLock :: map close_event (held p) ++ EvDial (rabbitMQURL p) :: rest) /\
  closes (trace_of r)
  = held p ++ match result_of r with
              | Normal None => []
              | _ => obtained e
              end.
Proof.
  unfold_go. unfold held, obtained.
  destruct p as [[c|] [ch|] cf ex mr bd pt url],
           e as [[c'|derr] [ch'|cerr] [merr|]]; cbn;
    (split; [eexists; reflexivity | reflexivity]).
Qed.

Lemma isHealthy_true c ch p :
  conn p = Some c -> channel p = Some ch ->
  result_of (isHealthy false p) = Normal true.
Proof. intros Hc Hch. unfold_go. rewrite Hc, Hch. reflexivity. Qed.

Lemma NewPublisher_maxRetries url exch retries delayMs timeoutSec e p t :
  NewPublisher url exch retries delayMs timeoutSec e = ((Some p, None), t) ->
  maxRetries p = retries.
Proof.
  unfold NewPublisher. unfold_go.
  destruct e as [[c'|derr] [ch'|cerr] [merr|]]; cbn; intros H; inversion H; reflexivity.
Qed.

(** [NewPublisher] returns either a publisher and no error, or an error and
    no publisher.  The publisher holds the handles the broker gave, paired,
    is healthy as long as the connection stays open, and carries the
    configuration with the delays in nanoseconds.  The error wraps its
    cause, and the handles obtained before the failure have been closed. *)
Theorem NewPublisher_outcomes (url exch : string) (retries delayMs timeoutSec : Z)
    (e : connect_env) :
  match NewPublisher url exch retries delayMs timeoutSec e with
  | ((Some p, None), t) =>
      handles_paired p /\
      held p = obtained e /\
      result_of (isHealthy false p) = Normal true /\
      closes t = [] /\
      rabbitMQURL p = url /\ exchange p = exch /\ maxRetries p = retries /\
      retryBaseDelay p = Int64.wrap64 (delayMs * 1000000) /\
      publishConfirmTimeout p = Int64.wrap64 (timeoutSec * 1000000000) /\
      (Int64.in_range (delayMs * 1000000) -> retryBaseDelay p = delayMs * 1000000)
  | ((None, Some err), t) =>
      closes t = obtained e /\
      exists cause,
        Unwrap err = Some cause /\
        (dial e = inr cause \/ open_channel e = inr cause \/ confirm_mode e = Some cause)
  | _ => False
  end.
Proof.
  unfold NewPublisher. unfold_go. unfold held, obtained, handles_paired.
  destruct e as [[c'|derr] [ch'|cerr] [merr|]]; cbn;
    try (split; [reflexivity|]; eexists; split; [reflexivity|]; auto).
  split; [|repeat split; try reflexivity].
  - intros ch H. inversion H. subst. split; [reflexivity | discriminate].
  - intros H. apply wrap64_in_range. exact H.
Qed.

(** ** One publish-and-confirm cycle, and shutdown *)

(** [publishWithConfirm] never panics and never changes the publisher.
    Without a channel it returns an error having asked nothing of the
    broker.  It waits for a confirmation exactly when it holds a channel and
    the submission succeeded; a failed submission comes back at once, wrapped. *)
Theorem publishWithConfirm_read_only (ctx : Context) (e : attempt_env)
    (routingKey body : string) (p : Publisher) :
  let r := publishWithConfirm ctx e routingKey body p in
  result_of r <> Panic /\
  state_of r = p /\
  (channel p = None ->
   r = (Normal (Some (errorString "channel is nil")), p, [EvLock; EvUnlock])) /\
  (awaits None (trace_of r) <> [] <->
   channel p <> None /\ publish_result e = None) /\
  (forall cause, channel p <> None -> publish_result e = Some cause ->
     result_of r = Normal (Some (Errorf_w "publish failed: " (Some cause)))).
Proof.
  unfold_go.
  destruct p as [pc [ch|] cf ex mr bd pt url]; cbn;
    destruct (publish_result e) as [perr|]; cbn;
    try destruct (confirm_wait e) as [[tag [|]]| |]; cbn;
    (split; [discriminate|]); (split; [reflexivity|]);
    (split; [intros H; first [discriminate H | reflexivity]|]);
    (split; [split; [intros H; first [split; [discriminate | reflexivity]
                                      | exfalso; apply H; reflexivity]
                    | intros [H1 H2]; first [discriminate | contradiction]]|]);
    intros cause H1 H2; first [contradiction | inversion H2; reflexivity | discriminate].
Qed.

Lemma publishWithConfirm_read_only_witness :
  trace_of (publishWithConfirm CancelContext Sample.acked Sample.routing_key "{}"
              (state_of (Close Sample.closes_cleanly Sample.connected)))
  = [EvLock; EvUnlock].
Proof.
  destruct (publishWithConfirm_read_only CancelContext Sample.acked Sample.routing_key
              "{}" (state_of (Close Sample.closes_cleanly Sample.connected)))
    as [_ [_ [H _]]].
  cbv zeta in H. rewrite H; reflexivity.
Defined.

(** [Close] returns the error of closing the connection and no other: an
    error of closing the channel is logged and dropped, and the connection is
    closed all the same.  The connection handle is kept exactly when closing
    it failed. *)
Theorem Close_returns_connection_error (e : close_env) (p : Publisher) :
  let r := Close e p in
  result_of r
  = Normal (match conn p with Some _ => conn_close e | None => None end) /\
  closes (trace_of r) = held p /\
  conn (state_of r)
  = match conn_close e with Some _ => conn p | None => None end /\
  confirms (state_of r) = confirms p /\
  maxRetries (state_of r) = maxRetries p.
Proof.
  unfold_go. unfold held.
  destruct p as [[c|] [ch|] cf ex mr bd pt url];
    destruct e as [[cherr|] [cerr|]]; cbn; repeat split.
Qed.

(** ** What a call of [Publish] can do *)

Section IterationMore.

Variables (ctx : Context) (e : attempt_env) (routingKey body : string).
Variables (a : Z) (p : Publisher).

Let run := attempt_body ctx e routingKey body a p.

(** An iteration ends the call with nil or with the context's error, or
    lets the loop go on. *)
Lemma attempt_body_step_shape :
  result_of run = Normal (Return None) \/
  result_of run = Normal (Return (Some (ctx_Err ctx))) \/
  exists err, result_of run = Normal (Continue err).
Proof.
  subst run. unfold_go. cbn. break_all; eauto.
Qed.

(** An iteration ends the call with nil only on a positive acknowledgment
    of its own submission. *)
Lemma attempt_body_acknowledged :
  result_of run = Normal (Return None) -> acknowledged e.
Proof.
  subst run. unfold acknowledged. unfold_go. cbn.
  break_all; intros H; try discriminate H; split; try reflexivity;
    eexists; split; eauto.
Qed.

(** An iteration submits at most one message and dials at most once. *)
Lemma attempt_body_single :
  (length (publishes (trace_of run)) <= 1)%nat /\
  (length (dials (trace_of run)) <= 1)%nat.
Proof.
  subst run. unfold_go. cbn. break_all; cbn; lia.
Qed.

(** An iteration keeps the handles paired, and waits only on the
    confirmations of the channel it has just published on. *)
Lemma attempt_body_paired (last : option Channel) :
  handles_paired p ->
  handles_paired (state_of run) /\
  Forall own_confirms (awaits last (trace_of run)).
Proof.
  intros Hp. subst run. unfold handles_paired in *.
  destruct p as [pc [ch|] pcf pex pmr pbd pto purl]; cbn in Hp.
  - destruct (Hp ch eq_refl) as [-> Hc]. destruct pc as [c|]; [|contradiction].
    clear Hp Hc. unfold_go. cbn.
    break_all;
      (split; [intros ch0 H0; inversion H0; subst; split; [reflexivity | discriminate]|]);
      repeat constructor; eexists; split; reflexivity.
  - clear Hp. unfold_go. cbn.
    break_all;
      (split; [intros ch0 H0; first [discriminate H0
                                    | inversion H0; subst; split;
                                      [reflexivity | discriminate]]|]);
      repeat constructor; eexists; split; reflexivity.
Qed.

End IterationMore.

Lemma publishes_app t1 t2 : publishes (t1 ++ t2) = publishes t1 ++ publishes t2.
Proof.
  induction t1 as [|ev t1 IH]; [reflexivity|].
  destruct ev; cbn; rewrite ?IH; reflexivity.
Qed.

Lemma awaits_app t1 : forall last t2,
  exists last', awaits last (t1 ++ t2) = awaits last t1 ++ awaits last' t2.
Proof.
  induction t1 as [|ev t1 IH]; intros last t2.
  - exists last. reflexivity.
  - destruct ev; cbn;
      try (destruct (IH last t2) as [last' H]; exists last'; rewrite H; reflexivity).
    destruct (IH (Some ch) t2) as [last' H]. exists last'. exact H.
Qed.

Section LoopMore.

Variables (ctx : Context) (w : world) (routingKey body : string).

(** The loop returns, with nil, with the context's error or with the error
    built after the loop, and leaves the configuration alone. *)
Lemma Publish_loop_outcome fuel : forall a lastErr p,
  1 <= a ->
  maxRetries p < Int64.max_int ->
  (Z.to_nat (maxRetries p + 1 - a) < fuel)%nat ->
  let r := Publish_loop fuel ctx w routingKey body a lastErr p in
  (result_of r = Normal None \/
   result_of r = Normal (Some (ctx_Err ctx)) \/
   exists cause, result_of r = Normal (Some (Errorf_attempts (maxRetries p) cause))) /\
  maxRetries (state_of r) = maxRetries p /\
  retryBaseDelay (state_of r) = retryBaseDelay p /\
  rabbitMQURL (state_of r) = rabbitMQURL p.
Proof.
  induction fuel as [|fuel IH]; intros a lastErr p H1 Hmax Hfuel; [lia|].
  cbv zeta. rewrite Publish_loop_S.
  destruct (a <=? maxRetries p) eqn:Hle;
    [|split; [right; right; eexists; reflexivity | repeat split]].
  apply Z.leb_le in Hle.
  rewrite (counter_next a (maxRetries p)) by lia.
  pose proof (attempt_body_step_shape ctx (w a) routingKey body a p) as Hs.
  pose proof (attempt_body_config ctx (w a) routingKey body a p) as [Hn [Hd Hu]].
  unfold result_of, state_of in *.
  destruct (attempt_body ctx (w a) routingKey body a p) as [[s p1] t1].
  cbn [fst snd] in *.
  destruct Hs as [-> | [-> | [err ->]]].
  - split; [left; reflexivity | auto].
  - split; [right; left; reflexivity | auto].
  - specialize (IH (a + 1) (Some err) p1). cbv zeta in IH.
    destruct (Publish_loop fuel ctx w routingKey body (a + 1) (Some err) p1)
      as [[r2 p2] t2]. cbn [fst snd] in *.
    rewrite <- Hn, <- Hd, <- Hu. apply IH; lia.
Qed.

(** The loop returns nil only when some attempt it runs is acknowledged. *)
Lemma Publish_loop_acknowledged fuel : forall a lastErr p,
  1 <= a ->
  maxRetries p < Int64.max_int ->
  result_of (Publish_loop fuel ctx w routingKey body a lastErr p) = Normal None ->
  exists k, a <= k <= maxRetries p /\ acknowledged (w k).
Proof.
  induction fuel as [|fuel IH]; intros a lastErr p H1 Hmax Hr; [discriminate Hr|].
  rewrite Publish_loop_S in Hr.
  destruct (a <=? maxRetries p) eqn:Hle; [|discriminate Hr].
  apply Z.leb_le in Hle.
  rewrite (counter_next a (maxRetries p)) in Hr by lia.
  pose proof (attempt_body_acknowledged ctx (w a) routingKey body a p) as Hack.
  pose proof (attempt_body_config ctx (w a) routingKey body a p) as [Hn _].
  unfold result_of, state_of in *.
  destruct (attempt_body ctx (w a) routingKey body a p) as [[[[[e'|]|err]| |] p1] t1];
    cbn [fst snd] in *; try discriminate Hr.
  - exists a. split; [lia | apply Hack; reflexivity].
  - specialize (IH (a + 1) (Some err) p1).
    destruct (Publish_loop fuel ctx w routingKey body (a + 1) (Some err) p1)
      as [[r2 p2] t2]. cbn [fst snd] in *.
    destruct IH as [k [Hk Hw]]; [lia | lia | exact Hr |].
    exists k. split; [lia | exact Hw].
Qed.

(** From attempt [a] on, the loop submits and dials at most once per attempt
    left. *)
Lemma Publish_loop_work fuel : forall a lastErr p,
  1 <= a ->
  maxRetries p < Int64.max_int ->
  let t := trace_of (Publish_loop fuel ctx w routingKey body a lastErr p) in
  (length (publishes t) <= Z.to_nat (maxRetries p + 1 - a))%nat /\
  (length (dials t) <= Z.to_nat (maxRetries p + 1 - a))%nat.
Proof.
  induction fuel as [|fuel IH]; intros a lastErr p H1 Hmax; [cbn; lia|].
  cbv zeta. rewrite Publish_loop_S.
  destruct (a <=? maxRetries p) eqn:Hle; [|cbn; lia].
  apply Z.leb_le in Hle.
  rewrite (counter_next a (maxRetries p)) by lia.
  pose proof (attempt_body_single ctx (w a) routingKey body a p) as [Hp Hd].
  pose proof (attempt_body_config ctx (w a) routingKey body a p) as [Hn _].
  unfold state_of, trace_of in *.
  destruct (attempt_body ctx (w a) routingKey body a p) as [[[[r|err]| |] p1] t1];
    cbn [fst snd] in *; try lia.
  specialize (IH (a + 1) (Some err) p1). cbv zeta in IH.
  destruct (Publish_loop fuel ctx w routingKey body (a + 1) (Some err) p1)
    as [[r2 p2] t2]. cbn [fst snd] in *.
  rewrite publishes_app, dials_app, !length_app.
  destruct IH as [IH1 IH2]; [lia | lia |]. rewrite Hn in IH1, IH2. lia.
Qed.

(** The loop keeps the handles paired and waits only on the confirmations of
    the channel just published on. *)
Lemma Publish_loop_paired fuel : forall a lastErr p last,
  handles_paired p ->
  let r := Publish_loop fuel ctx w routingKey body a lastErr p in
  handles_paired (state_of r) /\ Forall own_confirms (awaits last (trace_of r)).
Proof.
  induction fuel as [|fuel IH]; intros a lastErr p last Hp;
    [split; [exact Hp | constructor]|].
  cbv zeta. rewrite Publish_loop_S.
  destruct (a <=? maxRetries p); [|split; [exact Hp | constructor]].
  pose proof (attempt_body_paired ctx (w a) routingKey body a p last Hp) as [Hp1 Hw1].
  unfold state_of, trace_of in *.
  destruct (attempt_body ctx (w a) routingKey body a p) as [[[[r|err]| |] p1] t1];
    cbn [fst snd] in *; try (split; assumption).
  destruct (awaits_app t1 last
              (snd (Publish_loop fuel ctx w routingKey body (Int64.add a 1) (Some err) p1)))
    as [last' Happ].
  specialize (IH (Int64.add a 1) (Some err) p1 last' Hp1). cbv zeta in IH.
  destruct (Publish_loop fuel ctx w routingKey body (Int64.add a 1) (Some err) p1)
    as [[r2 p2] t2]. cbn [fst snd] in *.
  destruct IH as [IH1 IH2]. split; [exact IH1|].
  rewrite Happ. apply Forall_app. split; assumption.
Qed.

End LoopMore.



(** [Publish] returns nil only if, at one of the attempts it was allowed, the
    broker accepted the submission and acknowledged it positively. *)
Theorem Publish_nil_means_acknowledged (ctx : Context) (w : world)
    (routingKey : string) (msg : message) (p : Publisher) :
  counter_fits p ->
  result_of (Publish ctx w routingKey msg p) = Normal None ->
  exists k, 1 <= k <= maxRetries p /\ acknowledged (w k).
Proof.
  intros [_ Hmax] Hr.
  destruct (json_Marshal msg) as [body|cause] eqn:Hm.
  - rewrite (Publish_runs_loop _ _ _ _ _ _ Hm) in Hr.
    apply (Publish_loop_acknowledged ctx w routingKey body
             (S (Z.to_nat (maxRetries p))) 1 None p); [lia | lia | exact Hr].
  - unfold Publish in Hr. rewrite Hm in Hr. discriminate Hr.
Qed.

Lemma Publish_nil_means_acknowledged_witness :
  exists k, 1 <= k <= 3 /\
            acknowledged (Sample.until 3 Sample.nacked Sample.acked k).
Proof.
  apply (Publish_nil_means_acknowledged CancelContext
           (Sample.until 3 Sample.nacked Sample.acked)
           Sample.routing_key Sample.reading Sample.connected).
  - vm_compute. split; [discriminate | reflexivity].
  - reflexivity.
Defined.

(** A call of [Publish] submits the message at most [maxRetries] times and
    dials the broker at most [maxRetries] times. *)
Theorem Publish_bounded_work (ctx : Context) (w : world) (routingKey : string)
    (msg : message) (p : Publisher) :
  counter_fits p ->
  let t := trace_of (Publish ctx w routingKey msg p) in
  (length (publishes t) <= Z.to_nat (maxRetries p))%nat /\
  (length (dials t) <= Z.to_nat (maxRetries p))%nat.
Proof.
  intros [_ Hmax]. cbv zeta.
  destruct (json_Marshal msg) as [body|cause] eqn:Hm.
  - rewrite (Publish_runs_loop _ _ _ _ _ _ Hm).
    replace (Z.to_nat (maxRetries p)) with (Z.to_nat (maxRetries p + 1 - 1)) at 2 4
      by (f_equal; lia).
    apply Publish_loop_work; lia.
  - unfold Publish. rewrite Hm. cbn. lia.
Qed.

Lemma Publish_bounded_work_witness :
  (length (publishes (trace_of (Publish CancelContext (Sample.always Sample.nacked)
                                  Sample.routing_key Sample.reading Sample.connected)))
   <= 3)%nat.
Proof.
  destruct (Publish_bounded_work CancelContext (Sample.always Sample.nacked)
              Sample.routing_key Sample.reading Sample.connected) as [H _].
  - vm_compute. split; [discriminate | reflexivity].
  - exact H.
Defined.

(** On a publisher whose handles are paired, [Publish] leaves them paired,
    reconnects included, and every confirmation wait is on the confirmation
    channel of the channel the message was just submitted on, never on a
    nil one or on that of an earlier channel. *)
Theorem Publish_keeps_pairing (ctx : Context) (w : world) (routingKey : string)
    (msg : message) (p : Publisher) :
  handles_paired p ->
  let r := Publish ctx w routingKey msg p in
  handles_paired (state_of r) /\
  Forall own_confirms (awaits None (trace_of r)).
Proof.
  intros Hp. cbv zeta.
  destruct (json_Marshal msg) as [body|cause] eqn:Hm.
  - rewrite (Publish_runs_loop _ _ _ _ _ _ Hm).
    apply Publish_loop_paired. exact Hp.
  - unfold Publish. rewrite Hm. split; [exact Hp | constructor].
Qed.

Lemma Publish_keeps_pairing_witness :
  Forall own_confirms
    (awaits None
       (trace_of (Publish CancelContext (Sample.until 2 Sample.unreachable Sample.recovered)
                    Sample.routing_key Sample.reading Sample.connected))).
Proof.
  apply (Publish_keeps_pairing CancelContext
           (Sample.until 2 Sample.unreachable Sample.recovered)
           Sample.routing_key Sample.reading Sample.connected).
  intros ch H. vm_compute in H. inversion H. subst ch.
  split; [reflexivity | discriminate].
Defined.

(** ** The time spent backing off *)

Lemma total_app l1 l2 : total (l1 ++ l2) = total l1 + total l2.
Proof.
  unfold total. induction l1 as [|x l1 IH]; cbn; [reflexivity | rewrite IH; lia].
Qed.

Lemma total_doubling b m :
  total (map (fun i => b * 2 ^ Z.of_nat i) (seq 0 m)) = b * (2 ^ Z.of_nat m - 1).
Proof.
  induction m as [|m IH]; [cbn; lia|].
  rewrite seq_S, map_app, total_app, IH. cbn [map total fold_right Nat.add].
  rewrite Nat2Z.inj_succ, Z.pow_succ_r by lia. lia.
Qed.

(** With a base delay that is not negative and a last delay that fits an
    [int64], the backoff waits of a call of [Publish] add up to at most
    [retryBaseDelay * (2^(maxRetries-1) - 1)]: 300 ms for the defaults. *)
Theorem Publish_backoff_total (ctx : Context) (w : world) (routingKey : string)
    (msg : message) (p : Publisher) :
  counter_fits p ->
  1 <= maxRetries p ->
  0 <= retryBaseDelay p ->
  retryBaseDelay p * 2 ^ (maxRetries p - 1) <= Int64.max_int ->
  0 <= total (backoffs (trace_of (Publish ctx w routingKey msg p)))
    <= retryBaseDelay p * (2 ^ (maxRetries p - 1) - 1).
Proof.
  intros [_ Hmax] Hn Hb Hfit.
  destruct (json_Marshal msg) as [body|cause] eqn:Hm.
  2:{ unfold Publish. rewrite Hm. cbn.
      assert (1 <= 2 ^ (maxRetries p - 1)) by (apply Z.pow_le_mono_r with (b := 0); lia).
      nia. }
  rewrite (Publish_runs_loop _ _ _ _ _ _ Hm).
  destruct (Publish_loop_backoffs ctx w routingKey body
              (S (Z.to_nat (maxRetries p))) 1 None p) as [m [Hm' Ht]];
    [lia | exact Hmax |].
  assert (Z.of_nat m <= maxRetries p - 1) as Hle by (destruct Hm' as [->|Hm']; lia).
  rewrite Ht.
  rewrite (map_ext_in _ (fun i => retryBaseDelay p * 2 ^ Z.of_nat i)).
  - rewrite total_doubling.
    assert (1 <= 2 ^ Z.of_nat m) by (apply Z.pow_le_mono_r with (b := 0); lia).
    assert (2 ^ Z.of_nat m <= 2 ^ (maxRetries p - 1))
      by (apply Z.pow_le_mono_r; lia).
    nia.
  - intros i Hi. apply in_seq in Hi.
    rewrite backoff_delay_wrap by lia.
    replace (1 + Z.of_nat i - 1) with (Z.of_nat i) by lia.
    apply wrap64_in_range.
    assert (0 < 2 ^ Z.of_nat i) by (apply Z.pow_pos_nonneg; lia).
    assert (2 ^ Z.of_nat i <= 2 ^ (maxRetries p - 1))
      by (apply Z.pow_le_mono_r; lia).
    unfold Int64.in_range, Int64.min_int. split; [|nia].
    assert (0 <= retryBaseDelay p * 2 ^ Z.of_nat i) by nia. lia.
Qed.

Lemma Publish_backoff_total_witness :
  total (backoffs (trace_of (Publish CancelContext (Sample.always Sample.nacked)
                               Sample.routing_key Sample.reading Sample.connected)))
  <= 300000000.
Proof.
  apply (Publish_backoff_total CancelContext (Sample.always Sample.nacked)
           Sample.routing_key Sample.reading Sample.connected).
  - vm_compute. split; [discriminate | reflexivity].
  - vm_compute. discriminate.
  - vm_compute. discriminate.
  - vm_compute. discriminate.
Defined.

(** ** From the environment to the publisher *)

(** A retry budget of zero or less is accepted by [Load] as it is, and the
    publisher built from that configuration fails every [Publish] of a
    serializable message at once, without asking anything of the broker. *)
Theorem no_retries_configured (env : environ) (cfg : Config) (n : Z)
    (e : connect_env) (p : Publisher) (t : trace)
    (ctx : Context) (w : world) (routingKey : string) (msg : message) (body : string) :
  Load env = inl cfg ->
  env "RABBITMQ_MAX_RETRIES"%string = verb_d n ->
  Int64.in_range n ->
  n <= 0 ->
  providePublisher cfg e = ((Some p, None), t) ->
  json_Marshal msg = inl body ->
  Publish ctx w routingKey msg p
  = (Normal (Some (Errorf_attempts n None)), p, []).
Proof.
  intros Hload Henv Hn H0 Hnew Hm.
  assert (RabbitMQMaxRetries cfg = n) as Hcfg.
  { unfold Load in Hload.
    destruct (String.eqb (getEnv env "RABBITMQ_URL" "") ""); [discriminate|].
    inversion Hload. cbn. apply getEnvAsInt_verb_d; assumption. }
  assert (maxRetries p = n) as Hp.
  { unfold providePublisher in Hnew.
    rewrite (NewPublisher_maxRetries _ _ _ _ _ _ _ _ Hnew). exact Hcfg. }
  rewrite (Publish_runs_loop _ _ _ _ _ _ Hm).
  rewrite Publish_loop_past by lia. rewrite Hp. reflexivity.
Qed.

Lemma no_retries_configured_witness :
  exists p t,
    providePublisher
      {| ServiceName := "energy-metering-ingest-api"; ServicePort := 8080;
         RabbitMQURL := "amqps://broker.example:5671";
         RabbitMQExchange := "energy-metering.ingest.exchange";
         RabbitMQRoutingKey := "meter.reading.ingested";
         RabbitMQMaxRetries := 0; RabbitMQRetryBaseDelay := 100;
         ServerStartTimeout := 15; ServerStopTimeout := 15;
         PublishConfirmTimeout := 5; GinMode := "debug" |}
      Sample.broker_up = ((Some p, None), t) /\
    Publish CancelContext (Sample.always Sample.acked) Sample.routing_key
            Sample.reading p
    = (Normal (Some (wrapNil "failed to publish after 0 attempts: %!w(<nil>)")), p, []).
Proof.
  do 2 eexists. split; [reflexivity|].
  eapply (no_retries_configured Cases.env_no_retries _ 0 Sample.broker_up).
  - reflexivity.
  - reflexivity.
  - vm_compute. split; discriminate.
  - lia.
  - reflexivity.
  - reflexivity.
Defined.

(** ** Validation of a request *)

Lemma check_readings_complete pm : forall i,
  forallb (fun r => match missing_field r with None => true | Some _ => false end) pm
  = true ->
  check_readings i pm = None.
Proof.
  induction pm as [|r pm IH]; intros i H; [reflexivity|].
  cbn in H. apply andb_prop in H. destruct H as [Hr Hpm].
  unfold missing_field in Hr. cbn [check_readings].
  destruct (String.eqb (Date r) ""); [discriminate|].
  destruct (String.eqb (Data r) ""); [discriminate|].
  destruct (String.eqb (Name r) ""); [discriminate|].
  apply IH. exact Hpm.
Qed.

Lemma check_readings_first pre : forall i r post field,
  forallb (fun r => match missing_field r with None => true | Some _ => false end) pre
  = true ->
  missing_field r = Some field ->
  check_readings i (pre ++ r :: post)
  = Some (Errorf_field (i + Z.of_nat (length pre)) field).
Proof.
  induction pre as [|r0 pre IH]; intros i r post field Hpre Hr.
  - cbn. rewrite Z.add_0_r. unfold missing_field in Hr.
    destruct (String.eqb (Date r) ""); [inversion Hr; reflexivity|].
    destruct (String.eqb (Data r) ""); [inversion Hr; reflexivity|].
    destruct (String.eqb (Name r) ""); [inversion Hr; reflexivity|].
    discriminate.
  - cbn in Hpre. apply andb_prop in Hpre. destruct Hpre as [Hr0 Hpre].
    unfold missing_field in Hr0. cbn [app check_readings].
    destruct (String.eqb (Date r0) ""); [discriminate|].
    destruct (String.eqb (Data r0) ""); [discriminate|].
    destruct (String.eqb (Name r0) ""); [discriminate|].
    rewrite (IH (i + 1) r post field Hpre Hr). do 2 f_equal.
    cbn [length]. lia.
Qed.

Lemma check_readings_some pm : forall i err,
  check_readings i pm = Some err ->
  forallb (fun r => match missing_field r with None => true | Some _ => false end) pm
  = false.
Proof.
  induction pm as [|r pm IH]; intros i err H; [discriminate|].
  cbn in H |- *. unfold missing_field.
  destruct (String.eqb (Date r) ""); [reflexivity|].
  destruct (String.eqb (Data r) ""); [reflexivity|].
  destruct (String.eqb (Name r) ""); [reflexivity|].
  cbn. apply (IH _ _ H).
Qed.

Lemma ProcessReading_incomplete s se ctx w req metadata p :
  complete req = false ->
  exists err,
    ProcessReading s se ctx w req metadata p = (Normal (Some err), p, []) /\
    Unwrap err = None.
Proof.
  intros Hc. unfold ProcessReading, complete in *.
  destruct (PM req) as [|r pm] eqn:Hpm.
  - eexists. split; reflexivity.
  - cbn [length Nat.eqb negb andb] in Hc.
    replace (Z.of_nat (length (r :: pm)) =? 0) with false
      by (symmetry; apply Z.eqb_neq; cbn [length]; lia).
    destruct (check_readings 0 (r :: pm)) as [err|] eqn:E.
    + exists err. split; [reflexivity|].
      clear Hc. revert E. generalize 0. generalize (r :: pm).
      induction l as [|r0 l IH]; intros i E; [discriminate|].
      cbn in E.
      destruct (String.eqb (Date r0) ""); [inversion E; reflexivity|].
      destruct (String.eqb (Data r0) ""); [inversion E; reflexivity|].
      destruct (String.eqb (Name r0) ""); [inversion E; reflexivity|].
      apply (IH _ E).
    + assert (check_readings 0 (r :: pm) = None -> False) as Hf.
      { intros _.
        destruct (forallb _ (r :: pm)) eqn:Ef; [discriminate|].
        clear Hc. revert E Ef. generalize 0. generalize (r :: pm).
        induction l as [|r0 l IH]; intros i E Ef; [discriminate|].
        cbn in E, Ef. unfold missing_field in Ef.
        destruct (String.eqb (Date r0) ""); [discriminate|].
        destruct (String.eqb (Data r0) ""); [discriminate|].
        destruct (String.eqb (Name r0) ""); [discriminate|].
        cbn in Ef. apply (IH _ E Ef). }
      destruct (Hf E).
Qed.

Lemma ProcessReading_complete s se ctx w req metadata p :
  complete req = true ->
  ProcessReading s se ctx w req metadata p
  = bind (Publish ctx w (routingKey s) (as_message se (message_of se req metadata)))
      (fun r =>
         match r with
         | Some err =>
             log ErrorLevel "Failed to publish message"
                 [zapString "request_id" (new_uuid se); zapError err] ;;
             ret (Some (Errorf_w "failed to publish message: " (Some err)))
         | None =>
             log Info "Meter reading ingested successfully"
                 [zapString "request_id" (new_uuid se);
                  zapString "client_fingerprint"
                    (Fingerprint.Generate (IPAddress metadata) (UserAgent metadata));
                  zapInt "readings_count" (Z.of_nat (length (PM req)))] ;;
             ret None
         end) p.
Proof.
  intros Hc. unfold ProcessReading, complete in *.
  apply andb_prop in Hc. destruct Hc as [Hlen Hall].
  destruct (PM req) as [|r pm] eqn:Hpm; [discriminate|].
  replace (Z.of_nat (length (r :: pm)) =? 0) with false
    by (symmetry; apply Z.eqb_neq; cbn [length]; lia).
  rewrite (check_readings_complete _ 0 Hall). reflexivity.
Qed.

(** [ProcessReading] rejects a request with no reading or with an empty
    [date], [data] or [name] before it touches the publisher; the error
    names the first reading at fault, counted from 0, and its first empty
    field in that order. *)
Theorem ProcessReading_names_first_empty_field (s : IngestService) (se : service_env)
    (ctx : Context) (w : world) (metadata : ClientMetadata) (p : Publisher)
    (pre post : list MeterReading) (r : MeterReading) (field : string) :
  forallb (fun r => match missing_field r with None => true | Some _ => false end) pre
  = true ->
  missing_field r = Some field ->
  ProcessReading s se ctx w {| PM := pre ++ r :: post |} metadata p
  = (Normal (Some (errorString ("PM[" ++ verb_d (Z.of_nat (length pre)) ++ "]."
                                ++ field ++ " cannot be empty"))), p, []) /\
  ProcessReading s se ctx w {| PM := [] |} metadata p
  = (Normal (Some (errorString "PM array cannot be empty")), p, []).
Proof.
  intros Hpre Hr. split; [|reflexivity].
  unfold ProcessReading. cbn [PM].
  replace (Z.of_nat (length (pre ++ r :: post)) =? 0) with false
    by (symmetry; apply Z.eqb_neq; rewrite length_app; cbn [length]; lia).
  rewrite (check_readings_first pre 0 r post field Hpre Hr). reflexivity.
Qed.

Lemma ProcessReading_names_first_empty_field_witness :
  ProcessReading Cases.service Cases.drawn CancelContext (Sample.always Sample.acked)
    {| PM := [Cases.reading_ok; Cases.reading_no_data; Cases.reading_ok] |}
    Cases.device Sample.connected
  = (Normal (Some (errorString "PM[1].data cannot be empty")), Sample.connected, []).
Proof.
  apply (ProcessReading_names_first_empty_field Cases.service Cases.drawn CancelContext
           (Sample.always Sample.acked) Cases.device Sample.connected
           [Cases.reading_ok] [Cases.reading_ok] Cases.reading_no_data "data").
  - reflexivity.
  - reflexivity.
Defined.



(** ** The handler *)

Lemma Split_first sep s :
  exists first others,
    Split s sep = first :: others /\
    free_of sep first = true /\
    (s = first \/ exists rest, s = (first ++ String sep rest)%string).
Proof.
  induction s as [|c s IH].
  - exists EmptyString, []. repeat split. left. reflexivity.
  - destruct IH as [first [others [Hs [Hf Hrest]]]]. cbn [Split].
    destruct (Ascii.eqb c sep) eqn:E.
    + apply Ascii.eqb_eq in E. subst c.
      exists EmptyString, (Split s sep). repeat split. right. exists s. reflexivity.
    + rewrite Hs. exists (String c first), others. split; [reflexivity|]. split.
      * unfold free_of in *. cbn. rewrite E, Hf. reflexivity.
      * destruct Hrest as [->|[rest ->]]; [left; reflexivity|].
        right. exists rest. reflexivity.
Qed.

Section HandlerProperties.

Variable TrimSpace : string -> string.

(** [getClientIP] trusts the headers of the request before the socket.  A
    non-empty [X-Forwarded-For] alone decides the result: the text before
    its first comma, trimmed, whatever [X-Real-IP] and the socket address
    are.  Without it a non-empty [X-Real-IP], trimmed, is taken, and only
    without both the address gin reports. *)
Theorem getClientIP_precedence (c : GinContext) :
  let xff := GetHeader c "X-Forwarded-For" in
  let xri := GetHeader c "X-Real-IP" in
  (xff <> EmptyString ->
   (exists first,
      getClientIP TrimSpace c = TrimSpace first /\
      free_of "," first = true /\
      (xff = first \/ exists rest, xff = (first ++ String "," rest)%string)) /\
   forall c', GetHeader c' "X-Forwarded-For" = xff ->
              getClientIP TrimSpace c' = getClientIP TrimSpace c) /\
  (xff = EmptyString -> xri <> EmptyString -> getClientIP TrimSpace c = TrimSpace xri) /\
  (xff = EmptyString -> xri = EmptyString -> getClientIP TrimSpace c = ClientIP c).
Proof.
  cbv zeta. unfold getClientIP. split; [|split].
  - intros Hx.
    destruct (String.eqb (GetHeader c "X-Forwarded-For") "") eqn:E;
      [apply String.eqb_eq in E; contradiction|].
    destruct (Split_first "," (GetHeader c "X-Forwarded-For"))
      as [first [others [Hs [Hf Hrest]]]].
    split.
    + exists first. cbn [negb]. rewrite Hs. auto.
    + intros c' Hc'. rewrite Hc', E. cbn [negb]. rewrite Hs. reflexivity.
  - intros -> Hr. cbn.
    destruct (String.eqb (GetHeader c "X-Real-IP") "") eqn:E;
      [apply String.eqb_eq in E; contradiction | reflexivity].
  - intros -> ->. reflexivity.
Qed.

(** [IngestReading] never panics and answers 400, 503 or 202.  A body that
    does not bind gives 400 and leaves the publisher and the broker alone.
    A bound request that is incomplete gives 503, not 400, again without
    touching the broker.  202 is sent only for a complete request that the
    broker has acknowledged positively within the retry budget. *)
Theorem IngestReading_status (s : IngestService) (se : service_env) (w : world)
    (c : GinContext) (p : Publisher) :
  counter_fits p ->
  let r := IngestReading TrimSpace s se w c p in
  exists resp,
    result_of r = Normal resp /\
    match ShouldBindJSON c with
    | inr err =>
        status resp = StatusBadRequest /\ state_of r = p /\
        publishes (trace_of r) = [] /\ dials (trace_of r) = []
    | inl req =>
        if complete req then
          status resp = StatusServiceUnavailable \/
          (status resp = StatusAccepted /\
           exists k, 1 <= k <= maxRetries p /\ acknowledged (w k))
        else
          status resp = StatusServiceUnavailable /\ state_of r = p /\
          publishes (trace_of r) = [] /\ dials (trace_of r) = []
    end.
Proof.
  intros [Hmin Hmax]. cbv zeta. unfold IngestReading.
  destruct (ShouldBindJSON c) as [req|err].
  - set (metadata := {| IPAddress := getClientIP TrimSpace c;
                        UserAgent := GetHeader c "User-Agent";
                        HasAuthHeader := _ |}).
    destruct (complete req) eqn:Hc.
    + unfold bind at 1. rewrite (ProcessReading_complete _ _ _ _ _ _ _ Hc).
      unfold bind at 1.
      rewrite (Publish_runs_loop (RequestContext c) w (routingKey s)
                 (as_message se (message_of se req metadata))
                 (marshal se (message_of se req metadata)) p eq_refl).
      pose proof (Publish_loop_outcome (RequestContext c) w (routingKey s)
                    (marshal se (message_of se req metadata))
                    (S (Z.to_nat (maxRetries p))) 1 None p) as Hout.
      pose proof (Publish_loop_acknowledged (RequestContext c) w (routingKey s)
                    (marshal se (message_of se req metadata))
                    (S (Z.to_nat (maxRetries p))) 1 None p) as Hack.
      cbv zeta in Hout. unfold result_of in *.
      destruct (Publish_loop _ _ w _ _ 1 None p) as [[r1 p1] t1]. cbn [fst snd] in *.
      destruct Hout as [[-> | [-> | [cause ->]]] _]; [lia | lia | lia | | |]; cbn.
      * eexists. split; [reflexivity|]. right. split; [reflexivity|].
        apply Hack; [lia | lia | reflexivity].
      * eexists. split; [reflexivity|]. left. reflexivity.
      * eexists. split; [reflexivity|]. left. reflexivity.
    + destruct (ProcessReading_incomplete s se (RequestContext c) w req metadata p Hc)
        as [err [Hr _]].
      unfold bind. rewrite Hr. cbn. eexists. repeat split.
  - cbn. eexists. repeat split.
Qed.

End HandlerProperties.

Lemma IngestReading_status_witness :
  exists resp,
    result_of (IngestReading (fun s => s) Cases.service Cases.drawn
                 (Sample.always Sample.acked)
                 (Cases.incoming "203.0.113.7, 10.0.0.1" "" "IoT-Device/1.0"
                    (inl {| PM := [] |}) "10.0.0.1")
                 Sample.connected)
    = Normal resp /\
    status resp = StatusServiceUnavailable.
Proof.
  destruct (IngestReading_status (fun s => s) Cases.service Cases.drawn
              (Sample.always Sample.acked)
              (Cases.incoming "203.0.113.7, 10.0.0.1" "" "IoT-Device/1.0"
                 (inl {| PM := [] |}) "10.0.0.1")
              Sample.connected) as [resp [Hr Hs]].
  - vm_compute. split; [discriminate | reflexivity].
  - exists resp. split; [exact Hr|]. cbn in Hs. apply Hs.
Defined.

Lemma getClientIP_precedence_witness :
  getClientIP (fun s => s)
    (Cases.incoming "203.0.113.7, 10.0.0.1" "198.51.100.2" "IoT-Device/1.0"
       (inl {| PM := [] |}) "10.0.0.1")
  = getClientIP (fun s => s)
      (Cases.incoming "203.0.113.7, 10.0.0.1" "" "curl/8.0"
         (inl {| PM := [] |}) "192.0.2.44").
Proof.
  destruct (getClientIP_precedence (fun s => s)
              (Cases.incoming "203.0.113.7, 10.0.0.1" "" "curl/8.0"
                 (inl {| PM := [] |}) "192.0.2.44")) as [H _].
  destruct H as [_ H].
  - discriminate.
  - apply H. reflexivity.
Defined.

(** ** Retries and reconnects *)

Lemma submissions_app t1 t2 : submissions (t1 ++ t2) = submissions t1 ++ submissions t2.
Proof.
  induction t1 as [|ev t1 IH]; [reflexivity|].
  destruct ev; cbn; rewrite ?IH; reflexivity.
Qed.

Lemma closes_app t1 t2 : closes (t1 ++ t2) = closes t1 ++ closes t2.
Proof.
  induction t1 as [|ev t1 IH]; [reflexivity|].
  destruct ev; cbn; rewrite ?IH; reflexivity.
Qed.

Section Retries.

Variables (ctx : Context) (w : world) (routingKey body : string).

(** Whatever an iteration submits is the body it was given, under the
    routing key it was given, on the publisher's exchange. *)
Lemma attempt_body_submissions e a p :
  let run := attempt_body ctx e routingKey body a p in
  Forall (eq (exchange p, routingKey, body)) (submissions (trace_of run)) /\
  exchange (state_of run) = exchange p.
Proof.
  unfold_go. cbn. break_all; split; repeat constructor.
Qed.

Lemma Publish_loop_submissions fuel : forall a lastErr p,
  Forall (eq (exchange p, routingKey, body))
    (submissions (trace_of (Publish_loop fuel ctx w routingKey body a lastErr p))).
Proof.
  induction fuel as [|fuel IH]; intros a lastErr p; [constructor|].
  rewrite Publish_loop_S.
  destruct (a <=? maxRetries p); [|constructor].
  pose proof (attempt_body_submissions (w a) a p) as [Hs He]. cbv zeta in Hs, He.
  unfold state_of, trace_of in *.
  destruct (attempt_body ctx (w a) routingKey body a p) as [[[[r|err]| |] p1] t1];
    cbn [fst snd] in *; try exact Hs.
  specialize (IH (Int64.add a 1) (Some err) p1).
  destruct (Publish_loop fuel ctx w routingKey body (Int64.add a 1) (Some err) p1)
    as [[r2 p2] t2]. cbn [fst snd] in *.
  rewrite submissions_app. apply Forall_app. split; [exact Hs|].
  rewrite <- He. exact IH.
Qed.

(** An iteration on a publisher that holds its handles, with the connection
    reported open, leaves the publisher as it is and neither dials nor
    closes anything. *)
Lemma attempt_body_healthy e a p c ch :
  conn p = Some c -> channel p = Some ch -> conn_closed e = false ->
  let run := attempt_body ctx e routingKey body a p in
  state_of run = p /\ dials (trace_of run) = [] /\ closes (trace_of run) = [].
Proof.
  intros Hc Hch Hcl. cbv zeta. unfold_go. rewrite Hc, Hch, Hcl. cbn.
  break_all; repeat split.
Qed.

Lemma Publish_loop_healthy fuel : forall a lastErr p c ch,
  conn p = Some c -> channel p = Some ch ->
  (forall k, conn_closed (w k) = false) ->
  let r := Publish_loop fuel ctx w routingKey body a lastErr p in
  state_of r = p /\ dials (trace_of r) = [] /\ closes (trace_of r) = [].
Proof.
  induction fuel as [|fuel IH]; intros a lastErr p c ch Hc Hch Hw;
    [repeat split|].
  cbv zeta. rewrite Publish_loop_S.
  destruct (a <=? maxRetries p); [|repeat split].
  pose proof (attempt_body_healthy (w a) a p c ch Hc Hch (Hw a)) as [Hs [Hd Hcl]].
  unfold state_of, trace_of in *.
  destruct (attempt_body ctx (w a) routingKey body a p) as [[[[r|err]| |] p1] t1];
    cbn [fst snd] in *; try (repeat split; assumption).
  subst p1.
  specialize (IH (Int64.add a 1) (Some err) p c ch Hc Hch Hw). cbv zeta in IH.
  destruct (Publish_loop fuel ctx w routingKey body (Int64.add a 1) (Some err) p)
    as [[r2 p2] t2]. cbn [fst snd] in *.
  destruct IH as [IH1 [IH2 IH3]].
  rewrite dials_app, closes_app, Hd, Hcl, IH2, IH3. repeat split. exact IH1.
Qed.

End Retries.

(** Every submission of a call of [Publish], the first and the retries, is
    the same bytes under the same routing key on the publisher's exchange:
    what is delivered twice after a lost confirmation is the same message. *)
Theorem Publish_resends_same_message (ctx : Context) (w : world)
    (routingKey : string) (msg : message) (body : string) (p : Publisher) :
  json_Marshal msg = inl body ->
  Forall (eq (exchange p, routingKey, body))
    (submissions (trace_of (Publish ctx w routingKey msg p))).
Proof.
  intros Hm. rewrite (Publish_runs_loop _ _ _ _ _ _ Hm).
  apply Publish_loop_submissions.
Qed.

Lemma Publish_resends_same_message_witness :
  Forall (eq (exchange Sample.connected, Sample.routing_key, "{}"%string))
    (submissions (trace_of (Publish CancelContext
                              (Sample.until 2 Sample.timed_out Sample.acked)
                              Sample.routing_key Sample.reading Sample.connected))).
Proof.
  apply (Publish_resends_same_message CancelContext
           (Sample.until 2 Sample.timed_out Sample.acked)
           Sample.routing_key Sample.reading "{}" Sample.connected).
  reflexivity.
Defined.

(** As long as the broker library reports the connection open, a call of
    [Publish] on a publisher that holds its handles keeps them: it does not
    dial, closes nothing and leaves the publisher as it was, however the
    attempts end. *)
Theorem Publish_healthy_keeps_connection (ctx : Context) (w : world)
    (routingKey : string) (msg : message) (p : Publisher)
    (c : Connection) (ch : Channel) :
  conn p = Some c ->
  channel p = Some ch ->
  (forall k, conn_closed (w k) = false) ->
  let r := Publish ctx w routingKey msg p in
  state_of r = p /\ dials (trace_of r) = [] /\ closes (trace_of r) = [].
Proof.
  intros Hc Hch Hw. cbv zeta.
  destruct (json_Marshal msg) as [body|cause] eqn:Hm.
  - rewrite (Publish_runs_loop _ _ _ _ _ _ Hm).
    apply (Publish_loop_healthy ctx w routingKey body _ 1 None p c ch Hc Hch Hw).
  - unfold Publish. rewrite Hm. repeat split.
Qed.

Lemma Publish_healthy_keeps_connection_witness :
  state_of (Publish CancelContext (Sample.always Sample.nacked)
              Sample.routing_key Sample.reading Sample.connected)
  = Sample.connected.
Proof.
  apply (Publish_healthy_keeps_connection CancelContext (Sample.always Sample.nacked)
           Sample.routing_key Sample.reading Sample.connected (Conn 1) (Chan 1)).
  - reflexivity.
  - reflexivity.
  - intros k. reflexivity.
Defined.

(** A publisher that is unhealthy at its first attempt (no connection, no
    channel, or a connection reported closed) reconnects within that
    attempt: with the broker back and an acknowledgment, [Publish] returns
    nil, having closed the handles it held, dialled once, installed the new
    handles and published on the new channel. *)
Theorem Publish_reconnects_transparently (ctx : Context) (w : world)
    (routingKey : string) (msg : message) (body : string) (p : Publisher)
    (c : Connection) (ch : Channel) :
  json_Marshal msg = inl body ->
  1 <= maxRetries p ->
  conn p = None \/ channel p = None \/ conn_closed (w 1) = true ->
  dial (connecting (w 1)) = inl c ->
  open_channel (connecting (w 1)) = inl ch ->
  confirm_mode (connecting (w 1)) = None ->
  acknowledged (w 1) ->
  let r := Publish ctx w routingKey msg p in
  result_of r = Normal None /\
  state_of r = set_handles (Some c) (Some ch) (Some (Confirms ch)) p /\
  closes (trace_of r) = held p /\
  dials (trace_of r) = [rabbitMQURL p] /\
  publishes (trace_of r) = [ch].
Proof.
  intros Hm Hn Hbad Hd Ho Hcm [Hp [cf [Hcw Hack]]]. cbv zeta.
  rewrite (Publish_runs_loop _ _ _ _ _ _ Hm), Publish_loop_S.
  replace (1 <=? maxRetries p) with true by (symmetry; apply Z.leb_le; lia).
  unfold_go. unfold held. rewrite Hd, Ho, Hcm, Hp, Hcw, Hack.
  destruct p as [[c0|] [ch0|] pcf pex pmr pbd pto purl]; cbn in *;
    destruct Hbad as [Hb | [Hb | Hb]]; try discriminate Hb;
    try rewrite Hb; cbn; try (destruct (conn_closed (w 1)); cbn); repeat split.
Qed.

Lemma Publish_reconnects_transparently_witness :
  result_of (Publish CancelContext (Sample.always Sample.recovered)
               Sample.routing_key Sample.reading Sample.connected)
  = Normal None.
Proof.
  apply (Publish_reconnects_transparently CancelContext (Sample.always Sample.recovered)
           Sample.routing_key Sample.reading "{}" Sample.connected (Conn 2) (Chan 2)).
  - reflexivity.
  - vm_compute. discriminate.
  - right. right. reflexivity.
  - reflexivity.
  - reflexivity.
  - reflexivity.
  - split; [reflexivity|]. eexists. split; reflexivity.
Defined.
